(** * Flag evaluation engine of feature-flag-manager

    A shallow embedding of [src/models/flag.model.js] (the [evaluate],
    [evaluateRule] and [getDefaultValue] methods of the Flag model) and of
    [evaluateAllFlags] from [src/services/evaluation.service.js], together
    with the properties the specification states about them; then of the
    services, the Project model and the JavaScript SDK around them.  Where
    the language throws (a conversion of an object to a string or to a date)
    the model throws; where the language tells values apart by truthiness
    (a [userId], an [endDate]) the model holds the values as they are stored
    or received. *)

From Stdlib Require Import ZArith QArith Qabs Lia List String Ascii DecimalString.
From stdpp Require Import base option list gmap sorting.

Local Open Scope Z_scope.

(** ** JavaScript values *)

(** A JavaScript string is a sequence of UTF-16 code units;
    [str.charCodeAt i] reads the [i]-th one. *)
Abbreviation jsstring := (list N).

Definition code_of_ascii (a : ascii) : N := N_of_ascii a.

(** Embedding of a literal made of ASCII characters. *)
Definition str (s : string) : jsstring := map code_of_ascii (list_ascii_of_string s).

(** The values stored in Mixed fields and in evaluation contexts.
    Numbers are the finite doubles, as rationals, plus [NaN]; everything
    that is not a primitive (plain objects, arrays, dates, functions) is an
    object known by its reference, which is all that truthiness and [===]
    look at. *)
Inductive JsVal : Type :=
  | VUndefined
  | VNull
  | VBool (b : bool)
  | VNum (x : Q)
  | VNaN
  | VStr (s : jsstring)
  | VObj (ref : N).

(** ToBoolean, as used by [!v], [v || w] and [v ? a : b]. *)
Definition truthy (v : JsVal) : bool :=
  match v with
  | VUndefined | VNull | VNaN => false
  | VBool b => b
  | VNum x => negb (Qeq_bool x 0)
  | VStr s => match s with [] => false | _ => true end
  | VObj _ => true
  end.

(** [a === b]. *)
Definition strict_equals (a b : JsVal) : bool :=
  match a, b with
  | VUndefined, VUndefined => true
  | VNull, VNull => true
  | VBool x, VBool y => Bool.eqb x y
  | VNum x, VNum y => Qeq_bool x y
  | VStr s, VStr t => bool_decide (s = t)
  | VObj r, VObj r' => (r =? r')%N
  | _, _ => false
  end.

(** [a || b]. *)
Definition js_or (a b : JsVal) : JsVal := if truthy a then a else b.

(** ** 32-bit integer arithmetic of the bitwise operators *)

Module Int32.

Definition modulus : Z := 2 ^ 32.
Definition half_modulus : Z := 2 ^ 31.

(** ToInt32 on an integral number. *)
Definition to_int32 (z : Z) : Z :=
  (z + half_modulus) mod modulus - half_modulus.

(** [a << n]. *)
Definition shl (a n : Z) : Z :=
  to_int32 (Z.shiftl (to_int32 a) (n mod 32)).

(** [a & b]. *)
Definition and (a b : Z) : Z :=
  to_int32 (Z.land (to_int32 a) (to_int32 b)).

Definition in_range (z : Z) : Prop := - half_modulus <= z < half_modulus.

End Int32.

(** ** The bucketing computation of the PERCENTAGE branch *)

(** One iteration of
    [hash = ((hash << 5) - hash) + str.charCodeAt(i); hash = hash & hash]. *)
Definition hash_step (hash : Z) (charCode : N) : Z :=
  let hash := (Int32.shl hash 5 - hash) + Z.of_N charCode in
  Int32.and hash hash.

(** The [for] loop over the code units, starting from [hash = 0]. *)
Definition hash_loop (s : jsstring) : Z := fold_left hash_step s 0.

(** [Math.abs(hash % 100)]: [%] is the remainder that takes the sign of the
    dividend. *)
Definition normalizedHash (s : jsstring) : Z := Z.abs (Z.rem (hash_loop s) 100).

(** The reference algorithm, in the words of the specification:
    [h = (h*31 + codeUnit) mod 2^32] read as a signed 32-bit number, then
    [abs(h) mod 100]. *)
Module Reference.

Definition signed32 (u : Z) : Z := if u <? 2 ^ 31 then u else u - 2 ^ 32.

Definition step (h : Z) (codeUnit : N) : Z :=
  signed32 ((h * 31 + Z.of_N codeUnit) mod 2 ^ 32).

Definition hash (s : jsstring) : Z := fold_left step s 0.

Definition bucket (s : jsstring) : Z := Z.abs (hash s) mod 100.

End Reference.

(** ** Data model (the schemas of [flag.model.js]) *)

(** What [new Date(x)] constructs: a time in milliseconds since the epoch,
    or an Invalid Date, whose time value is [NaN]. *)
Inductive JsDate : Type :=
  | InvalidDate
  | DateMs (t : Z).

(** [now >= d] and [now <= d] for the current time [now]: the dates are
    compared through their time values, and every comparison with [NaN] is
    false. *)
Definition date_ge (now : Z) (d : JsDate) : bool :=
  match d with InvalidDate => false | DateMs t => t <=? now end.

Definition date_le (now : Z) (d : JsDate) : bool :=
  match d with InvalidDate => false | DateMs t => now <=? t end.

(** A rule's [type] together with the [value] the schema validator of
    [ruleSchema] admits for it:
    - PERCENTAGE: a number;
    - USER_SEGMENT: an object, given by [Object.entries(value)];
    - SCHEDULED: [{startDate, endDate}], given by the two fields as they
      are stored, [VUndefined] for a field the object does not have (the
      validator asks for a truthy [startDate] and for nothing of
      [endDate]);
    - DEFAULT: any value;
    - a type outside the enumeration, which reaches the [default:] branch. *)
Inductive RuleBody : Type :=
  | PERCENTAGE (percentageValue : Q)
  | USER_SEGMENT (segmentValue : list (jsstring * JsVal))
  | SCHEDULED (startDate endDate : JsVal)
  | DEFAULT (value : JsVal)
  | OTHER_TYPE.

(** [priority] is an integer: the routes accept it with
    [isInt({ min: 0 })], and the schema defaults it to 0. *)
Record Rule : Type := mkRule {
  rule_body : RuleBody;
  priority : Z
}.

Record Variation : Type := mkVariation {
  variation_key : jsstring;
  variation_value : JsVal
}.

(** [value] is [VUndefined] when the field is not set; [defaultVariation]
    is [None] when it is null or undefined. *)
Record EnvironmentSettings : Type := mkEnv {
  enabled : bool;
  rules : list Rule;
  value : JsVal;
  variations : list Variation;
  defaultVariation : option jsstring
}.

Inductive FlagType : Type := BOOLEAN | STRING | NUMBER | JSON.

Record Metrics : Type := mkMetrics {
  evaluations : Z;
  lastEvaluated : option Z
}.

Record Flag : Type := mkFlag {
  key : jsstring;
  type : FlagType;
  environments : gmap jsstring EnvironmentSettings;
  metrics : Metrics
}.

(** The evaluation context is a plain object; [context[key]] is
    [undefined] for a key it does not have.  (What a context inherits from
    [Object.prototype] are objects of the runtime, never [===] to a stored
    value: a segment that names one of them fails to match either way.) *)
Definition context_get (context : gmap jsstring JsVal) (k : jsstring) : JsVal :=
  default VUndefined (context !! k).

(** ** Completions: a call returns a value or throws *)

Inductive Error : Type :=
  | EnvironmentNotFound (environment flagKey : jsstring)
  | TypeError.

Inductive Completion (A : Type) : Type :=
  | Returned (a : A)
  | Thrown (e : Error).
Arguments Returned {A} a.
Arguments Thrown {A} e.

#[global] Instance Completion_ret : MRet Completion := fun A a => Returned a.

#[global] Instance Completion_bind : MBind Completion := fun A B k c =>
  match c with
  | Returned a => k a
  | Thrown e => Thrown e
  end.

(** [try { body } catch (error) { handler }]. *)
Definition try_catch {A} (body : Completion A) (handler : Error -> Completion A)
  : Completion A :=
  match body with
  | Returned a => Returned a
  | Thrown e => handler e
  end.

(** ** [Array.prototype.sort] *)

(** [sort] is stable, and [comparator a b <= 0] keeps [a] before [b].
    Insertion from the right realises exactly that: an element goes before
    the first one it does not have to follow. *)
Section Sort.
Context {A : Type} (comparator : A -> A -> Z).

Fixpoint sort_insert (x : A) (l : list A) : list A :=
  match l with
  | [] => [x]
  | y :: l' => if comparator x y <=? 0 then x :: l else y :: sort_insert x l'
  end.

Definition sort (l : list A) : list A := foldr sort_insert [] l.

End Sort.

(** ** What the specification says of a segment *)

(** Every key of the rule's value is present in the context, with a value
    strictly equal to the required one. *)
Definition segment_claimed (context : gmap jsstring JsVal)
    (entries : list (jsstring * JsVal)) : Prop :=
  Forall (fun kv => is_Some (context !! kv.1)
                    /\ strict_equals (context_get context kv.1) kv.2 = true)
         entries.

(** [defaultVariation] is unset: null or undefined, or the empty string,
    which [!value] does not tell from them. *)
Definition is_unset (defaultVariation : option jsstring) : Prop :=
  defaultVariation = None \/ defaultVariation = Some [].

(** ** The methods of the Flag model *)

Record RuleResult : Type := mkResult {
  matches : bool;
  result_value : JsVal
}.

(** [x < y] on numbers. *)
Definition Qlt_bool (x y : Q) : bool := negb (Qle_bool y x).

(** The loop of the USER_SEGMENT branch over [Object.entries(segmentValue)]:
    [matches] starts as [true]; the first entry with
    [!context[key] || context[key] !== value] sets it to [false] and breaks. *)
Fixpoint segment_loop (context : gmap jsstring JsVal)
    (entries : list (jsstring * JsVal)) : bool :=
  match entries with
  | [] => true
  | (k, v) :: rest =>
      if negb (truthy (context_get context k))
         || negb (strict_equals (context_get context k) v)
      then false
      else segment_loop context rest
  end.

(** The body of [getDefaultValue] once [envSettings] has been read. *)
Definition resolveDefault (flagType : FlagType) (envSettings : EnvironmentSettings)
  : JsVal :=
  match flagType with
  | BOOLEAN =>
      match value envSettings with
      | VUndefined => VBool false
      | v => v
      end
  | _ =>
      match variations envSettings with
      | first :: _ =>
          let defaultKey :=
            match defaultVariation envSettings with
            | Some (c :: k) => c :: k
            | Some [] | None => variation_key first
            end in
          match find (fun v => bool_decide (variation_key v = defaultKey))
                     (variations envSettings) with
          | Some variation => variation_value variation
          | None => VNull
          end
      | [] =>
          match value envSettings with
          | VUndefined => VNull
          | v => v
          end
      end
  end.

Section Engine.

(** The conversions of the language that the rules apply to stored and
    received values.  For a number, [NumberToString] is its string.  For an
    object, [ObjectToString] is the string that [object + string] prepends:
    the object is first converted to a primitive by its [valueOf] and
    [toString], and the conversion throws a TypeError, here [None], when
    neither yields a primitive (the object [{toString: 1}] of a JSON
    context, for one).  [DateParse] is the date [new Date(string)]
    constructs, and [ObjectToDate] the date [new Date(object)] constructs: the
    time value of a Date object, what the primitive of another object gives,
    [None] when the conversion to a primitive throws. *)
Context (NumberToString : Q -> jsstring) (ObjectToString : N -> option jsstring).
Context (DateParse : jsstring -> JsDate) (ObjectToDate : N -> option JsDate).

Definition ToString (v : JsVal) : Completion jsstring :=
  match v with
  | VUndefined => Returned (str "undefined")
  | VNull => Returned (str "null")
  | VBool true => Returned (str "true")
  | VBool false => Returned (str "false")
  | VNum x => Returned (NumberToString x)
  | VNaN => Returned (str "NaN")
  | VStr s => Returned s
  | VObj r =>
      match ObjectToString r with
      | Some s => Returned s
      | None => Thrown TypeError
      end
  end.

(** [a + b] where [b] is a string: concatenation, once [a] is a string. *)
Definition js_add_string (a : JsVal) (b : jsstring) : Completion jsstring :=
  s ← ToString a; mret (s ++ b).

(** The string the PERCENTAGE branch hashes:
    [const userId = context.userId || ''; const str = userId + this.key]. *)
Definition percentage_seed (this : Flag) (context : gmap jsstring JsVal)
  : Completion jsstring :=
  let userId := js_or (context_get context (str "userId")) (VStr []) in
  js_add_string userId (key this).

(** [new Date(value)]: a number is a valid time up to 8.64e15 milliseconds
    either side of the epoch, and is truncated to an integral time value;
    [null] and the booleans count as the numbers 0 and 1; [undefined] and
    [NaN] give an Invalid Date; a string is parsed. *)
Definition TimeClip (time : Q) : JsDate :=
  if Qle_bool (Qabs time) (inject_Z 8640000000000000)
  then DateMs (Z.quot (Qnum time) (Zpos (Qden time)))
  else InvalidDate.

Definition new_Date (value : JsVal) : Completion JsDate :=
  match value with
  | VUndefined => Returned InvalidDate
  | VNull => Returned (DateMs 0)
  | VBool true => Returned (DateMs 1)
  | VBool false => Returned (DateMs 0)
  | VNum x => Returned (TimeClip x)
  | VNaN => Returned InvalidDate
  | VStr s => Returned (DateParse s)
  | VObj r =>
      match ObjectToDate r with
      | Some d => Returned d
      | None => Thrown TypeError
      end
  end.

(** [evaluateRule(rule, context)]; [now] is what [new Date()] reads. *)
Definition evaluateRule (this : Flag) (now : Z) (rule : Rule)
    (context : gmap jsstring JsVal) : Completion RuleResult :=
  match rule_body rule with
  | PERCENTAGE percentageValue =>
      seed ← percentage_seed this context;
      let normalized := normalizedHash seed in
      mret {| matches := Qlt_bool (inject_Z normalized) percentageValue;
              result_value := VBool true |}
  | USER_SEGMENT segmentValue =>
      mret {| matches := segment_loop context segmentValue;
              result_value := VBool true |}
  | SCHEDULED startDate endDate =>
      start ← new_Date startDate;
      end_ ← (if truthy endDate
              then d ← new_Date endDate; mret (Some d)
              else mret None);
      let isAfterStart := date_ge now start in
      let isBeforeEnd :=
        match end_ with
        | Some e => date_le now e
        | None => true
        end in
      mret {| matches := isAfterStart && isBeforeEnd;
              result_value := VBool true |}
  | DEFAULT v =>
      mret {| matches := true; result_value := v |}
  | OTHER_TYPE =>
      mret {| matches := false; result_value := VNull |}
  end.

(** The seed in the words of the specification: [userId] concatenated with
    the flag's key, the empty string standing in for an absent [userId]. *)
Definition claimed_seed (this : Flag) (context : gmap jsstring JsVal)
  : Completion jsstring :=
  js_add_string (default (VStr []) (context !! str "userId")) (key this).

(** The window in the words of the specification: [now >= startDate], and
    [endDate] is absent or [now <= endDate]; an end date is absent when the
    rule has none, or null. *)
Definition claimed_window (now : Z) (startDate endDate : JsVal) : Completion bool :=
  start ← new_Date startDate;
  match endDate with
  | VUndefined | VNull => mret (date_ge now start)
  | _ => end_ ← new_Date endDate; mret (date_ge now start && date_le now end_)
  end.

(** Whether a rule matches: [evaluateRule] returns, and reports a match. *)
Definition rule_matches (this : Flag) (now : Z) (context : gmap jsstring JsVal)
    (rule : Rule) : bool :=
  match evaluateRule this now rule context with
  | Returned result => matches result
  | Thrown _ => false
  end.

(** Whether a loop over the rules stops at a rule: the rule matches, or its
    evaluation throws. *)
Definition rule_stops (this : Flag) (now : Z) (context : gmap jsstring JsVal)
    (rule : Rule) : bool :=
  match evaluateRule this now rule context with
  | Returned result => matches result
  | Thrown _ => true
  end.

(** The first rule of a list at which the loop stops. *)
Definition first_stop (this : Flag) (now : Z) (context : gmap jsstring JsVal)
    (l : list Rule) : option Rule :=
  find (rule_stops this now context) l.

(** What comes of the rule the loop stops at: its value, or what its
    evaluation throws. *)
Definition rule_outcome (this : Flag) (now : Z) (context : gmap jsstring JsVal)
    (rule : Rule) : Completion JsVal :=
  result ← evaluateRule this now rule context; mret (result_value result).

(** [getDefaultValue(environment)]: reading a field of an [envSettings]
    that is [undefined] throws a TypeError. *)
Definition getDefaultValue (this : Flag) (environment : jsstring) : Completion JsVal :=
  match environments this !! environment with
  | None => Thrown TypeError
  | Some envSettings => Returned (resolveDefault (type this) envSettings)
  end.

(** [a] may come before [b] in descending order of priority. *)
Definition priority_ge (a b : Rule) : Prop := priority b <= priority a.

(** The comparator [(a, b) => b.priority - a.priority]. *)
Definition by_priority (a b : Rule) : Z := priority b - priority a.

(** The [for (const rule of sortedRules)] loop: [Some v] when it returns
    [v] from inside, [None] when it runs to its end. *)
Fixpoint rules_loop (this : Flag) (now : Z) (context : gmap jsstring JsVal)
    (sortedRules : list Rule) : Completion (option JsVal) :=
  match sortedRules with
  | [] => mret None
  | rule :: rest =>
      result ← evaluateRule this now rule context;
      if matches result then mret (Some (result_value result))
      else rules_loop this now context rest
  end.

(** [evaluate(environment, context)].  The clock is an input: [now] is the
    time [new Date()] reads, the same for every rule of one call. *)
Definition evaluate (this : Flag) (environment : jsstring)
    (context : gmap jsstring JsVal) (now : Z) : Completion JsVal :=
  match environments this !! environment with
  | None => Thrown (EnvironmentNotFound environment (key this))
  | Some envSettings =>
      if negb (enabled envSettings) then getDefaultValue this environment
      else
        match rules envSettings with
        | [] => getDefaultValue this environment
        | _ =>
            let sortedRules := sort by_priority (rules envSettings) in
            returned ← rules_loop this now context sortedRules;
            match returned with
            | Some v => Returned v
            | None => getDefaultValue this environment
            end
        end
  end.

(** ** The evaluation service *)

(** What [recordEvaluation] does to the stored flag:
    [$inc metrics.evaluations] and [$set metrics.lastEvaluated]. *)
Definition recordEvaluation (flag : Flag) (date : Z) : Flag :=
  {| key := key flag;
     type := type flag;
     environments := environments flag;
     metrics := {| evaluations := evaluations (metrics flag) + 1;
                   lastEvaluated := Some date |} |}.

(** The flag with other metrics and the same definition. *)
Definition with_metrics (flag : Flag) (m : Metrics) : Flag :=
  {| key := key flag;
     type := type flag;
     environments := environments flag;
     metrics := m |}.

(** [object[k] = v] on an object made by the literal [{}], given by its
    own properties.  The assignment makes or updates an own property, except
    for the name [__proto__]: that one reaches the setter the object inherits
    from [Object.prototype], which makes no own property.  (The setter makes
    the value the prototype of the object when it is an object or null, and
    does nothing otherwise; the own properties, which are what is read of
    the object afterwards, stay as they were.  The flags of a project have
    distinct keys, so that no second assignment names [__proto__].) *)
Definition object_set (object : gmap jsstring JsVal) (k : jsstring) (v : JsVal)
  : gmap jsstring JsVal :=
  if bool_decide (k = str "__proto__") then object else <[k := v]> object.

(** The body of the loop of [evaluateAllFlags] over the flags found for
    the project, threading the own properties of the [results] object, which
    are what the caller sends as JSON. *)
Fixpoint evaluateAllFlags_loop (flags : list Flag) (environment : jsstring)
    (context : gmap jsstring JsVal) (now : Z) (results : gmap jsstring JsVal)
  : Completion (gmap jsstring JsVal) :=
  match flags with
  | [] => mret results
  | flag :: rest =>
      results' ←
        try_catch
          (result ← evaluate flag environment context now;
           mret (object_set results (key flag) result))
          (fun error => mret results);
      evaluateAllFlags_loop rest environment context now results'
  end.

Definition evaluateAllFlags (flags : list Flag) (environment : jsstring)
    (context : gmap jsstring JsVal) (now : Z) : Completion (gmap jsstring JsVal) :=
  evaluateAllFlags_loop flags environment context now ∅.

End Engine.

(** ** What the rules read, and the schema's validator *)

(** The attribute names [evaluateRule] reads from the context for a rule. *)
Definition rule_reads (rule : Rule) : list jsstring :=
  match rule_body rule with
  | PERCENTAGE _ => [str "userId"]
  | USER_SEGMENT segmentValue => segmentValue.*1
  | _ => []
  end.

(** The validator of [defaultVariation] in the schema; [this] is the
    settings document that holds the field. *)
Definition defaultVariation_validator (this : EnvironmentSettings)
    (value : option jsstring) : bool :=
  match value with
  | None | Some [] => true
  | Some (c :: k) =>
      match variations this with
      | [] => false
      | _ => existsb (fun v => bool_decide (variation_key v = c :: k))
                     (variations this)
      end
  end.

(** [flag.environments.set(environment, settings)]. *)
Definition environments_set (flag : Flag) (environment : jsstring)
    (settings : EnvironmentSettings) : Flag :=
  {| key := key flag;
     type := type flag;
     environments := <[environment := settings]> (environments flag);
     metrics := metrics flag |}.

(** Assignments to the fields of a settings document. *)
Definition set_enabled (settings : EnvironmentSettings) (b : bool)
  : EnvironmentSettings :=
  {| enabled := b;
     rules := rules settings;
     value := value settings;
     variations := variations settings;
     defaultVariation := defaultVariation settings |}.

Definition set_rules (settings : EnvironmentSettings) (l : list Rule)
  : EnvironmentSettings :=
  {| enabled := enabled settings;
     rules := l;
     value := value settings;
     variations := variations settings;
     defaultVariation := defaultVariation settings |}.

Definition set_variations (settings : EnvironmentSettings) (l : list Variation)
  : EnvironmentSettings :=
  {| enabled := enabled settings;
     rules := rules settings;
     value := value settings;
     variations := l;
     defaultVariation := defaultVariation settings |}.

Definition set_defaultVariation (settings : EnvironmentSettings)
    (k : option jsstring) : EnvironmentSettings :=
  {| enabled := enabled settings;
     rules := rules settings;
     value := value settings;
     variations := variations settings;
     defaultVariation := k |}.

(** ** The services *)

(** What an [async] service function rejects with: an [Error] carrying a
    [statusCode], an error thrown by [flag.evaluate] and thrown again, a
    TypeError of the language, or the rejection of [flag.save()]. *)
Inductive ServiceError : Type :=
  | HttpError (message : jsstring) (statusCode : Z)
  | EvaluateError (e : Error)
  | ServiceTypeError
  | SaveRejected.

Inductive Async (A : Type) : Type :=
  | Resolved (a : A)
  | Rejected (e : ServiceError).
Arguments Resolved {A} a.
Arguments Rejected {A} e.

Record FlagEvaluation : Type := mkEvaluation {
  evaluation_key : jsstring;
  evaluation_value : JsVal
}.

(** [Flag.findOne({ project, key: flagKey })] over the flags of the
    project. *)
Definition findOne (flags : list Flag) (flagKey : jsstring) : option Flag :=
  find (fun flag => bool_decide (key flag = flagKey)) flags.

(** The settings-level part of the validation of a flag: unique variation
    keys and a [defaultVariation] its validator accepts. *)
Definition settings_wf (settings : EnvironmentSettings) : Prop :=
  NoDup (variation_key <$> variations settings)
  /\ defaultVariation_validator settings (defaultVariation settings) = true.

(** [!s] for a string field that may be null. *)
Definition is_falsy_key (k : option jsstring) : bool :=
  match k with
  | Some (_ :: _) => false
  | _ => true
  end.

Section Services.

Context (NumberToString : Q -> jsstring) (ObjectToString : N -> option jsstring).
Context (DateParse : jsstring -> JsDate) (ObjectToDate : N -> option JsDate).

#[local] Abbreviation evaluate :=
  (evaluate NumberToString ObjectToString DateParse ObjectToDate).
#[local] Abbreviation evaluateAllFlags :=
  (evaluateAllFlags NumberToString ObjectToString DateParse ObjectToDate).

(** Whether [flag.save()] resolves: the validation of the document and its
    storage. *)
Context (save : Flag -> bool).

(** [evaluateFlag(projectId, environment, flagKey, context)] of the
    evaluation service; [flags] are the flags stored for the project.  The
    call to [recordEvaluation] is not awaited and its rejection is caught: it
    has no part in what the function resolves to. *)
Definition evaluateFlag (flags : list Flag) (environment flagKey : jsstring)
    (context : gmap jsstring JsVal) (now : Z) : Async FlagEvaluation :=
  match findOne flags flagKey with
  | None => Rejected (HttpError (str "Flag '" ++ flagKey ++ str "' not found") 404)
  | Some flag =>
      match evaluate flag environment context now with
      | Returned result =>
          Resolved {| evaluation_key := key flag; evaluation_value := result |}
      | Thrown error => Rejected (EvaluateError error)
      end
  end.

(** The context [getClientFlags] of the SDK controller builds from
    [req.query.userId] and [req.ip]. *)
Definition getClientFlags_context (query_userId ip : JsVal) : gmap jsstring JsVal :=
  let context : gmap jsstring JsVal := ∅ in
  let context :=
    if truthy query_userId then <[str "userId" := query_userId]> context
    else context in
  if truthy ip then <[str "clientIP" := ip]> context else context.

(** [getClientFlags]: the [data] of the response. *)
Definition getClientFlags (flags : list Flag) (environment : jsstring)
    (query_userId ip : JsVal) (now : Z) : Completion (gmap jsstring JsVal) :=
  evaluateAllFlags flags environment (getClientFlags_context query_userId ip) now.

(** The common opening of the functions of the flag service: [found] is
    what [Flag.findById(flagId)] resolves to, the flag or null; then the
    settings of the flag for the environment are read. *)
Definition find_settings (found : option Flag) (environment : jsstring)
  : Async (Flag * EnvironmentSettings) :=
  match found with
  | None => Rejected (HttpError (str "Flag not found") 404)
  | Some flag =>
      match environments flag !! environment with
      | None =>
          Rejected (HttpError (str "Environment '" ++ environment
                               ++ str "' not found") 404)
      | Some currentSettings => Resolved (flag, currentSettings)
      end
  end.

(** The common ending: [flag.environments.set(environment, currentSettings)],
    [await flag.save()], [return flag]. *)
Definition set_and_save (flag : Flag) (environment : jsstring)
    (currentSettings : EnvironmentSettings) : Async Flag :=
  let flag := environments_set flag environment currentSettings in
  if save flag then Resolved flag else Rejected SaveRejected.

(** [toggleFlag(flagId, environment, userId, enabled)]; [enabled] is the
    boolean the route has validated. *)
Definition toggleFlag (found : option Flag) (environment : jsstring)
    (enabled_ : bool) : Async Flag :=
  match find_settings found environment with
  | Rejected e => Rejected e
  | Resolved (flag, currentSettings) =>
      set_and_save flag environment (set_enabled currentSettings enabled_)
  end.

(** [addFlagRule(flagId, environment, userId, ruleData)]: [ruleData] is
    pushed onto the rules. *)
Definition addFlagRule (found : option Flag) (environment : jsstring)
    (ruleData : Rule) : Async Flag :=
  match find_settings found environment with
  | Rejected e => Rejected e
  | Resolved (flag, currentSettings) =>
      set_and_save flag environment
        (set_rules currentSettings (rules currentSettings ++ [ruleData]))
  end.

(** [addVariation(flagId, environment, userId, variationData)]. *)
Definition addVariation (found : option Flag) (environment : jsstring)
    (variationData : Variation) : Async Flag :=
  match find_settings found environment with
  | Rejected e => Rejected e
  | Resolved (flag, currentSettings) =>
      match find (fun v => bool_decide (variation_key v = variation_key variationData))
                 (variations currentSettings) with
      | Some existingVariation =>
          Rejected (HttpError (str "Variation with key '"
                               ++ variation_key variationData
                               ++ str "' already exists") 400)
      | None =>
          let currentSettings :=
            set_variations currentSettings
              (variations currentSettings ++ [variationData]) in
          let currentSettings :=
            if (length (variations currentSettings) =? 1)%nat
               && is_falsy_key (defaultVariation currentSettings)
            then set_defaultVariation currentSettings
                   (Some (variation_key variationData))
            else currentSettings in
          set_and_save flag environment currentSettings
      end
  end.

(** [deleteVariation(flagId, environment, variationKey, userId)]. *)
Definition deleteVariation (found : option Flag) (environment : jsstring)
    (variationKey : jsstring) : Async Flag :=
  match find_settings found environment with
  | Rejected e => Rejected e
  | Resolved (flag, currentSettings) =>
      let not_found :=
        HttpError (str "Variation with key '" ++ variationKey
                   ++ str "' not found") 404 in
      let remaining :=
        filter (fun v => variation_key v <> variationKey)
               (variations currentSettings) in
      if negb (existsb (fun v => bool_decide (variation_key v = variationKey))
                       (variations currentSettings))
      then Rejected not_found
      else if bool_decide (defaultVariation currentSettings = Some variationKey)
      then
        if (length (variations currentSettings) =? 1)%nat
        then Rejected (HttpError (str "Cannot delete the only variation") 400)
        else
          match find (fun v => negb (bool_decide (variation_key v = variationKey)))
                     (variations currentSettings) with
          | None => Rejected ServiceTypeError
          | Some newDefault =>
              set_and_save flag environment
                (set_variations
                   (set_defaultVariation currentSettings
                      (Some (variation_key newDefault)))
                   remaining)
          end
      else set_and_save flag environment (set_variations currentSettings remaining)
  end.

(** [setDefaultVariation(flagId, environment, variationKey, userId)]. *)
Definition setDefaultVariation (found : option Flag) (environment : jsstring)
    (variationKey : jsstring) : Async Flag :=
  match find_settings found environment with
  | Rejected e => Rejected e
  | Resolved (flag, currentSettings) =>
      let variationExists :=
        existsb (fun v => bool_decide (variation_key v = variationKey))
                (variations currentSettings) in
      if negb variationExists
      then Rejected (HttpError (str "Variation with key '" ++ variationKey
                                ++ str "' not found") 404)
      else set_and_save flag environment
             (set_defaultVariation currentSettings (Some variationKey))
  end.

End Services.

(** ** Creating a flag *)

(** The settings a request gives for one environment when a flag is
    created; a field is [None] (or [VUndefined]) when it is not given. *)
Record EnvData : Type := mkEnvData {
  data_enabled : option bool;
  data_rules : option (list Rule);
  data_value : JsVal;
  data_variations : option (list Variation);
  data_defaultVariation : option jsstring
}.

(** The fields of [flagData] that make up the flag. *)
Record FlagData : Type := mkFlagData {
  data_key : jsstring;
  data_type : option FlagType;
  data_environments : option (gmap jsstring EnvData)
}.

(** The settings [createFlag] stores for an environment:
    [{ enabled: envData.enabled || false, rules: envData.rules || [],
       value: type === 'BOOLEAN' ? (envData.value || false) : envData.value,
       variations: envData.variations || [],
       defaultVariation: envData.defaultVariation || null }]. *)
Definition initial_settings (type_ : FlagType) (envData : EnvData)
  : EnvironmentSettings :=
  {| enabled := default false (data_enabled envData);
     rules := default [] (data_rules envData);
     value := match type_ with
              | BOOLEAN => js_or (data_value envData) (VBool false)
              | _ => data_value envData
              end;
     variations := default [] (data_variations envData);
     defaultVariation := match data_defaultVariation envData with
                         | Some (c :: k) => Some (c :: k)
                         | _ => None
                         end |}.

(** [{ enabled: false }], the data of an environment the request says
    nothing about. *)
Definition no_data : EnvData :=
  {| data_enabled := Some false;
     data_rules := None;
     data_value := VUndefined;
     data_variations := None;
     data_defaultVariation := None |}.

Section CreateFlag.

(** Whether [Flag.create] resolves: validation and storage. *)
Context (create : Flag -> bool).

(** [createFlag(projectId, userId, flagData)]: [existingFlag] is what
    [Flag.findOne] finds for the key, [project] the environments of the
    project [Project.findById] finds. *)
Definition createFlag (existingFlag : option Flag) (project : option (list jsstring))
    (flagData : FlagData) : Async Flag :=
  let type_ := default BOOLEAN (data_type flagData) in
  match existingFlag with
  | Some _ =>
      Rejected (HttpError (str "Flag with key '" ++ data_key flagData
                           ++ str "' already exists") 400)
  | None =>
      match project with
      | None => Rejected (HttpError (str "Project not found") 404)
      | Some project_environments =>
          let envSettings :=
            foldl (fun (envSettings : gmap jsstring EnvironmentSettings) env =>
                     let envData :=
                       match data_environments flagData with
                       | Some environments =>
                           default no_data (environments !! env)
                       | None => no_data
                       end in
                     <[env := initial_settings type_ envData]> envSettings)
                  ∅ project_environments in
          let flag :=
            {| key := data_key flagData;
               type := type_;
               environments := envSettings;
               metrics := {| evaluations := 0; lastEvaluated := None |} |} in
          if create flag then Resolved flag else Rejected SaveRejected
      end
  end.

End CreateFlag.

(** ** The JavaScript SDK *)

(** A cache entry: [{ value, timestamp }]. *)
Record CacheEntry : Type := mkEntry {
  entry_value : JsVal;
  entry_timestamp : Z
}.

(** The fields of a [FlagManager] that [getValue] and [clearCache] use;
    [bootstrap] is [None] when it is null, and else the own properties of
    the object of bootstrap values. *)
Record FlagManager : Type := mkManager {
  defaultFlagValue : JsVal;
  cache : gmap jsstring CacheEntry;
  enableCache : bool;
  cacheTtl : Z;
  bootstrap : option (gmap jsstring JsVal);
  offline : bool
}.

Definition set_cache (this : FlagManager) (c : gmap jsstring CacheEntry) : FlagManager :=
  {| defaultFlagValue := defaultFlagValue this;
     cache := c;
     enableCache := enableCache this;
     cacheTtl := cacheTtl this;
     bootstrap := bootstrap this;
     offline := offline this |}.

(** The names of the members of [Object.prototype], which an object made
    by a literal inherits. *)
Definition Object_prototype_names : list jsstring :=
  [str "constructor"; str "__defineGetter__"; str "__defineSetter__";
   str "hasOwnProperty"; str "__lookupGetter__"; str "__lookupSetter__";
   str "isPrototypeOf"; str "propertyIsEnumerable"; str "toString";
   str "valueOf"; str "__proto__"; str "toLocaleString"].

Section Sdk.

(** [JSON.stringify] on contexts.  A context is given by its own enumerable
    properties in the order the object enumerates them, which is the order
    [JSON.stringify] writes them in: two objects with the same properties
    inserted in different orders are different contexts.  The result is
    [None] when [JSON.stringify] throws (a cyclic context). *)
Context (stringify : list (jsstring * JsVal) -> option jsstring).

(** The reference of the member of [Object.prototype] of a given name. *)
Context (Object_prototype_member : jsstring -> N).

(** [object[k]] on an object made by a literal, given by its own
    properties: an own property, or else a member of [Object.prototype], or
    else [undefined]. *)
Definition object_get (object : gmap jsstring JsVal) (k : jsstring) : JsVal :=
  match object !! k with
  | Some v => v
  | None =>
      if bool_decide (k ∈ Object_prototype_names)
      then VObj (Object_prototype_member k)
      else VUndefined
  end.

(** [getCacheKey(flagKey, context)]. *)
Definition getCacheKey (flagKey : jsstring) (context : list (jsstring * JsVal))
  : option jsstring :=
  contextString ← stringify context;
  Some (flagKey ++ str ":" ++ contextString).

(** [defaultValue !== undefined ? defaultValue : this.defaultFlagValue]. *)
Definition fallback_value (this : FlagManager) (defaultValue : JsVal) : JsVal :=
  match defaultValue with
  | VUndefined => defaultFlagValue this
  | v => v
  end.

(** [getValue(flagKey, context, defaultValue)].  [now] is the clock when
    the cache is read; [response] is what the request to the server comes
    to, [Some value] for [result.value] and [None] when anything on the
    way throws; [now'] is the clock when the value is cached.  Whatever
    throws inside is caught, and the fallback value returned.  The result
    is the value the promise resolves to and the manager after the call. *)
Definition getValue (this : FlagManager) (flagKey : jsstring)
    (context : list (jsstring * JsVal)) (defaultValue : JsVal)
    (now : Z) (response : option JsVal) (now' : Z) : JsVal * FlagManager :=
  if offline this then
    match bootstrap this with
    | Some values =>
        match object_get values flagKey with
        | VUndefined => (fallback_value this defaultValue, this)
        | v => (v, this)
        end
    | None => (fallback_value this defaultValue, this)
    end
  else if enableCache this then
    match getCacheKey flagKey context with
    | None => (fallback_value this defaultValue, this)
    | Some cacheKey =>
        let cached :=
          match cache this !! cacheKey with
          | Some cachedValue =>
              if now - entry_timestamp cachedValue <? cacheTtl this
              then Some (entry_value cachedValue)
              else None
          | None => None
          end in
        match cached with
        | Some v => (v, this)
        | None =>
            match response with
            | None => (fallback_value this defaultValue, this)
            | Some v =>
                (v, set_cache this
                      (<[cacheKey := {| entry_value := v; entry_timestamp := now' |}]>
                         (cache this)))
            end
        end
    end
  else
    match response with
    | None => (fallback_value this defaultValue, this)
    | Some v => (v, this)
    end.

(** [key.startsWith(prefix)]. *)
Fixpoint startsWith (s prefix : jsstring) {struct prefix} : bool :=
  match prefix, s with
  | [], _ => true
  | c :: prefix', d :: s' => (c =? d)%N && startsWith s' prefix'
  | _ :: _, [] => false
  end.

(** [clearCache(flagKey)]; [flagKey] is [None] when it is not given. *)
Definition clearCache (this : FlagManager) (flagKey : option jsstring) : FlagManager :=
  match flagKey with
  | Some (c :: k) =>
      set_cache this
        (filter (fun entry => startsWith entry.1 ((c :: k) ++ str ":") = false)
                (cache this))
  | _ => set_cache this ∅
  end.

End Sdk.

(** ** The environments of a project (the Project model) *)

Record Project : Type := mkProject {
  project_environments : list jsstring;
  apiKeys : gmap jsstring jsstring
}.

(** What a method of the model comes to: it returns, having changed the
    document, or throws [new Error(message)]. *)
Inductive Outcome (A : Type) : Type :=
  | Done (a : A) (this' : Project)
  | Failed (message : jsstring).
Arguments Done {A} a this'.
Arguments Failed {A} message.

(** [addEnvironment(environment)]; [generated] is the key
    [generateApiKey()] draws. *)
Definition addEnvironment (this : Project) (environment generated : jsstring)
  : Outcome jsstring :=
  if bool_decide (environment ∈ project_environments this)
  then Failed (str "Environment '" ++ environment ++ str "' already exists")
  else
    Done generated
      {| project_environments := project_environments this ++ [environment];
         apiKeys := <[environment := generated]> (apiKeys this) |}.

(** [removeEnvironment(environment)]. *)
Definition removeEnvironment (this : Project) (environment : jsstring)
  : Outcome bool :=
  if negb (bool_decide (environment ∈ project_environments this))
  then Failed (str "Environment '" ++ environment ++ str "' does not exist")
  else if (length (project_environments this) <=? 1)%nat
  then Failed (str "Cannot remove the last environment")
  else
    Done true
      {| project_environments :=
           filter (fun env => env <> environment) (project_environments this);
         apiKeys := delete environment (apiKeys this) |}.

(** [regenerateApiKey(environment)]. *)
Definition regenerateApiKey (this : Project) (environment generated : jsstring)
  : Outcome jsstring :=
  if negb (bool_decide (environment ∈ project_environments this))
  then Failed (str "Environment '" ++ environment ++ str "' does not exist")
  else
    Done generated
      {| project_environments := project_environments this;
         apiKeys := <[environment := generated]> (apiKeys this) |}.

(** The environments are distinct (the validator of the schema) and the
    API keys are those of the environments (the default of [apiKeys]). *)
Definition project_wf (this : Project) : Prop :=
  NoDup (project_environments this)
  /\ forall env, is_Some (apiKeys this !! env) <-> env ∈ project_environments this.

(** ** Sample data *)

(** Conversions for the examples.  [sample_number] gives the decimal digits
    of an integer, as the language does for the integers below 1e21 in
    magnitude; the examples convert no other number.  The object of
    reference 0 stands for [{toString: 1}], whose conversion throws; every
    other reference for an object that converts as [{}] does, to a string
    that is no date.  Of the strings, the two dates of the scheduling
    scenario parse, to the midnights they name in UTC. *)
Definition sample_number (x : Q) : jsstring :=
  str (NilZero.string_of_int (Z.to_int (Z.quot (Qnum x) (Zpos (Qden x))))).

Definition sample_object (r : N) : option jsstring :=
  if (r =? 0)%N then None else Some (str "[object Object]").

Definition sample_parse (s : jsstring) : JsDate :=
  if bool_decide (s = str "2024-01-01") then DateMs 1704067200000
  else if bool_decide (s = str "2024-01-31") then DateMs 1706659200000
  else InvalidDate.

Definition sample_date (r : N) : option JsDate :=
  if (r =? 0)%N then None else Some InvalidDate.

(** A DEFAULT rule at priority 5 under a USER_SEGMENT rule at priority 10. *)
Definition sample_rules : list Rule :=
  [mkRule (DEFAULT (VStr (str "A"))) 5;
   mkRule (USER_SEGMENT [(str "plan", VStr (str "pro"))]) 10].

Definition sample_settings : EnvironmentSettings :=
  {| enabled := true;
     rules := sample_rules;
     value := VUndefined;
     variations := [mkVariation (str "A") (VNum 1); mkVariation (str "B") (VNum 2)];
     defaultVariation := None |}.

(** The same settings with a default variation that does not exist. *)
Definition dangling_settings : EnvironmentSettings :=
  {| enabled := false;
     rules := sample_rules;
     value := VUndefined;
     variations := variations sample_settings;
     defaultVariation := Some (str "C") |}.

Definition no_metrics : Metrics := {| evaluations := 0; lastEvaluated := None |}.

(** F1 has settings for [production] and for [staging]. *)
Definition F1 : Flag :=
  {| key := str "new-checkout";
     type := STRING;
     environments :=
       <[ str "staging" := dangling_settings ]>
         {[ str "production" := sample_settings ]};
     metrics := no_metrics |}.

(** F2 has settings for [staging] only. *)
Definition F2 : Flag :=
  {| key := str "dark-mode";
     type := BOOLEAN;
     environments := {[ str "staging" := sample_settings ]};
     metrics := no_metrics |}.

Definition pro_context : gmap jsstring JsVal :=
  {[ str "plan" := VStr (str "pro") ]}.

Definition user_context (userId : string) : gmap jsstring JsVal :=
  {[ str "userId" := VStr (str userId) ]}.

(** A [save] and a [create] that always resolve. *)
Definition always_resolves (flag : Flag) : bool := true.

(** A stand-in for [JSON.stringify] that tells the contexts of the examples
    apart: it writes the names of the properties, in their order. *)
Definition sample_stringify (context : list (jsstring * JsVal)) : option jsstring :=
  Some (str "{" ++ concat ((fun kv => kv.1 ++ str ";") <$> context) ++ str "}").

(** A stand-in for the references of the members of [Object.prototype]. *)
Definition sample_member (name : jsstring) : N := 1000 + N.of_nat (length name).

(** The context the controller hands on once it has added the client's
    address. *)
Definition ip_context : gmap jsstring JsVal :=
  <[ str "clientIP" := VStr (str "10.0.0.1") ]> pro_context.

Definition default_rule : Rule := mkRule (DEFAULT (VStr (str "A"))) 5.

Definition segment_rule : Rule :=
  mkRule (USER_SEGMENT [(str "plan", VStr (str "pro"))]) 10.

(** A rule that matches nobody, and a catch-all at the priority of the
    segment rule. *)
Definition closed_rule : Rule := mkRule (PERCENTAGE 0) 20.


(** Settings whose default variation is the first one. *)
Definition default_A_settings : EnvironmentSettings :=
  {| enabled := true;
     rules := sample_rules;
     value := VUndefined;
     variations := variations sample_settings;
     defaultVariation := Some (str "A") |}.

(** Settings without variations. *)
Definition bare_settings : EnvironmentSettings :=
  {| enabled := true;
     rules := [];
     value := VUndefined;
     variations := [];
     defaultVariation := None |}.

(** A context whose [userId] is the object [{toString: 1}]. *)
Definition unconvertible_context : gmap jsstring JsVal :=
  {[ str "userId" := VObj 0 ]}.

(** A flag rolled out to half of the users in [production]. *)
Definition rollout_settings : EnvironmentSettings :=
  {| enabled := true;
     rules := [mkRule (PERCENTAGE 50) 0];
     value := VBool false;
     variations := [];
     defaultVariation := None |}.

Definition F4 : Flag :=
  {| key := str "rollout";
     type := BOOLEAN;
     environments := {[ str "production" := rollout_settings ]};
     metrics := no_metrics |}.

(** A flag whose key is [__proto__], which the pattern of the schema
    accepts. *)
Definition F5 : Flag :=
  {| key := str "__proto__";
     type := BOOLEAN;
     environments := {[ str "production" := bare_settings ]};
     metrics := no_metrics |}.

(** F3 has well-formed settings for [production] and bare ones for
    [staging]. *)
Definition F3 : Flag :=
  {| key := str "checkout-copy";
     type := STRING;
     environments :=
       <[ str "staging" := bare_settings ]>
         {[ str "production" := default_A_settings ]};
     metrics := no_metrics |}.

(** F1 with [production] switched off. *)
Definition F1_off : Flag :=
  environments_set F1 (str "production") (set_enabled sample_settings false).

(** A request to create a flag that gives neither a type nor settings, and
    the flag it makes in a project with two environments. *)
Definition beta_data : FlagData :=
  {| data_key := str "beta"; data_type := None; data_environments := None |}.

Definition beta_flag : Flag :=
  {| key := str "beta";
     type := BOOLEAN;
     environments :=
       <[ str "staging" := initial_settings BOOLEAN no_data ]>
         {[ str "production" := initial_settings BOOLEAN no_data ]};
     metrics := no_metrics |}.

(** A project with the default environments of the schema. *)
Definition sample_project : Project :=
  {| project_environments := [str "development"; str "staging"; str "production"];
     apiKeys := <[ str "production" := str "k3" ]>
                  (<[ str "staging" := str "k2" ]>
                     {[ str "development" := str "k1" ]}) |}.

(** Two contexts with the same properties, in different orders. *)
Definition plan_region : list (jsstring * JsVal) :=
  [(str "plan", VStr (str "pro")); (str "region", VStr (str "us"))].

Definition region_plan : list (jsstring * JsVal) :=
  [(str "region", VStr (str "us")); (str "plan", VStr (str "pro"))].

(** A manager that is offline, with a bootstrap object of one flag. *)
Definition offline_manager : FlagManager :=
  {| defaultFlagValue := VBool false;
     cache := ∅;
     enableCache := true;
     cacheTtl := 60000;
     bootstrap := Some {[ str "beta" := VBool true ]};
     offline := true |}.

Definition sample_manager : FlagManager :=
  {| defaultFlagValue := VBool false;
     cache := ∅;
     enableCache := true;
     cacheTtl := 60000;
     bootstrap := None;
     offline := false |}.

(** * Properties *)

(** ** Bucketing *)

Lemma to_int32_range z : Int32.in_range (Int32.to_int32 z).
Proof.
  unfold Int32.in_range, Int32.to_int32, Int32.modulus, Int32.half_modulus.
  pose proof (Z.mod_pos_bound (z + 2 ^ 31) (2 ^ 32) ltac:(lia)). lia.
Qed.

Lemma to_int32_id z : Int32.in_range z -> Int32.to_int32 z = z.
Proof.
  unfold Int32.in_range, Int32.to_int32, Int32.modulus, Int32.half_modulus. intros H.
  rewrite Z.mod_small by lia. lia.
Qed.

Lemma to_int32_idem z : Int32.to_int32 (Int32.to_int32 z) = Int32.to_int32 z.
Proof. apply to_int32_id, to_int32_range. Qed.

(** Two numbers congruent modulo 2^32 have the same ToInt32. *)
Lemma to_int32_congr a b :
  (a - b) mod Int32.modulus = 0 -> Int32.to_int32 a = Int32.to_int32 b.
Proof.
  unfold Int32.to_int32, Int32.modulus, Int32.half_modulus. intros H.
  apply Z.mod_divide in H; [|lia]. destruct H as [k Hk].
  replace (a + 2 ^ 31) with ((b + 2 ^ 31) + k * 2 ^ 32) by lia.
  now rewrite Z.mod_add by lia.
Qed.

Lemma to_int32_spec z : (Int32.to_int32 z - z) mod Int32.modulus = 0.
Proof.
  unfold Int32.to_int32, Int32.modulus, Int32.half_modulus.
  rewrite (Z.mod_eq (z + 2 ^ 31) (2 ^ 32)) by lia.
  replace (z + 2 ^ 31 - 2 ^ 32 * ((z + 2 ^ 31) / 2 ^ 32) - 2 ^ 31 - z)
    with ((- ((z + 2 ^ 31) / 2 ^ 32)) * 2 ^ 32) by lia.
  apply Z.mod_mul. lia.
Qed.

Lemma and_diag a : Int32.and a a = Int32.to_int32 a.
Proof. unfold Int32.and. now rewrite Z.land_diag, to_int32_idem. Qed.

Lemma shl_5 a : Int32.shl a 5 = Int32.to_int32 (Int32.to_int32 a * 32).
Proof. unfold Int32.shl. now rewrite Z.shiftl_mul_pow2 by (vm_compute; discriminate). Qed.


Lemma to_int32_divide z : (Int32.modulus | Int32.to_int32 z - z).
Proof. apply Z.mod_divide; [discriminate | apply to_int32_spec]. Qed.

Lemma to_int32_congr_divide a b :
  (Int32.modulus | a - b) -> Int32.to_int32 a = Int32.to_int32 b.
Proof.
  intros H. apply to_int32_congr. apply Z.mod_divide; [discriminate | exact H].
Qed.

Lemma signed32_mod z : Reference.signed32 (z mod 2 ^ 32) = Int32.to_int32 z.
Proof.
  unfold Reference.signed32, Int32.to_int32, Int32.modulus, Int32.half_modulus.
  change (2 ^ 32) with 4294967296. change (2 ^ 31) with 2147483648.
  pose proof (Z.mod_pos_bound z 4294967296 ltac:(lia)) as Hu.
  pose proof (Z.div_mod z 4294967296 ltac:(lia)) as Hz.
  set (u := z mod 4294967296) in *. set (q := z / 4294967296) in *.
  replace (z + 2147483648) with (u + 2147483648 + q * 4294967296) by lia.
  rewrite Z.mod_add by lia.
  destruct (Z.ltb_spec u 2147483648).
  - rewrite Z.mod_small by lia. lia.
  - replace (u + 2147483648) with (u - 2147483648 + 1 * 4294967296) by lia.
    rewrite Z.mod_add by lia. rewrite Z.mod_small by lia. lia.
Qed.

(** One iteration of the loop is one step of the reference recurrence. *)
Lemma hash_step_reference h c : hash_step h c = Reference.step h c.
Proof.
  unfold hash_step, Reference.step.
  rewrite and_diag, shl_5, signed32_mod.
  apply to_int32_congr_divide.
  replace (Int32.to_int32 (Int32.to_int32 h * 32) - h + Z.of_N c
           - (h * 31 + Z.of_N c))
    with ((Int32.to_int32 (Int32.to_int32 h * 32) - Int32.to_int32 h * 32)
          + (Int32.to_int32 h - h) * 32) by lia.
  apply Z.divide_add_r; [apply to_int32_divide|].
  apply Z.divide_mul_l, to_int32_divide.
Qed.

Lemma hash_loop_reference s : hash_loop s = Reference.hash s.
Proof.
  unfold hash_loop, Reference.hash. generalize 0.
  induction s as [|c s IH]; intros h; simpl; [reflexivity|].
  now rewrite hash_step_reference, IH.
Qed.

Lemma abs_rem_100 h : Z.abs (Z.rem h 100) = Z.abs h mod 100.
Proof.
  rewrite <- (Z.rem_abs h 100) by discriminate.
  apply Z.rem_mod_nonneg; [apply Z.abs_nonneg | reflexivity].
Qed.

Lemma normalizedHash_bucket s : normalizedHash s = Reference.bucket s.
Proof.
  unfold normalizedHash, Reference.bucket.
  now rewrite abs_rem_100, hash_loop_reference.
Qed.

(** C2: for every seed string, the hash loop of the PERCENTAGE branch followed
    by [Math.abs(hash % 100)] computes the reference bucket of the
    specification (multiply by 31, add the code unit, wrap to a signed 32-bit
    number, then absolute value modulo 100), and the result is an integer of
    the interval [0,100). *)
Theorem normalizedHash_refines_reference (s : jsstring) :
  normalizedHash s = Reference.bucket s /\ 0 <= normalizedHash s < 100.
Proof.
  split; [apply normalizedHash_bucket|].
  rewrite normalizedHash_bucket. unfold Reference.bucket.
  apply Z.mod_pos_bound. reflexivity.
Qed.

Example normalizedHash_a : normalizedHash (str "a") = 97.
Proof. reflexivity. Qed.

Example normalizedHash_ab : normalizedHash (str "ab") = 5.
Proof. reflexivity. Qed.

(** A seed long enough for the hash to wrap around into the negatives. *)
Example normalizedHash_wraps :
  hash_loop (str "user-42new-checkout") = -622033261
  /\ normalizedHash (str "user-42new-checkout") = 61.
Proof. split; reflexivity. Qed.

(** ** Sorting by priority *)

Lemma sort_insert_perm {A} (cmp : A -> A -> Z) x l :
  sort_insert cmp x l ≡ₚ x :: l.
Proof.
  induction l as [|y l IH]; simpl; [reflexivity|].
  destruct (cmp x y <=? 0); [reflexivity|].
  rewrite IH. apply Permutation_swap.
Qed.

Lemma sort_perm {A} (cmp : A -> A -> Z) l : sort cmp l ≡ₚ l.
Proof.
  induction l as [|x l IH]; simpl; [reflexivity|].
  now rewrite sort_insert_perm, IH.
Qed.

Lemma sort_insert_sorted x l :
  StronglySorted priority_ge l ->
  StronglySorted priority_ge (sort_insert by_priority x l).
Proof.
  induction 1 as [|y l Hl IH Hy]; simpl.
  - repeat constructor.
  - unfold by_priority at 1. destruct (Z.leb_spec (priority y - priority x) 0).
    + constructor; [now constructor|].
      constructor; [unfold priority_ge; lia|].
      eapply Forall_impl; [exact Hy|]. unfold priority_ge. intros; lia.
    + constructor; [exact IH|].
      rewrite sort_insert_perm. constructor; [unfold priority_ge; lia | exact Hy].
Qed.

Lemma sort_sorted l : StronglySorted priority_ge (sort by_priority l).
Proof.
  induction l as [|x l IH]; simpl; [constructor|].
  now apply sort_insert_sorted.
Qed.

(** Inserting a rule leaves the rules of every priority in their order,
    the new rule first among those of its own priority. *)
Lemma sort_insert_filter p x l :
  filter (fun r => priority r = p) (sort_insert by_priority x l)
  = filter (fun r => priority r = p) (x :: l).
Proof.
  induction l as [|y l IH]; simpl; [reflexivity|].
  unfold by_priority at 1. destruct (Z.leb_spec (priority y - priority x) 0).
  - reflexivity.
  - rewrite filter_cons, IH, !filter_cons.
    destruct (decide (priority y = p)), (decide (priority x = p)); try reflexivity.
    lia.
Qed.

Lemma sort_stable p l :
  filter (fun r => priority r = p) (sort by_priority l)
  = filter (fun r => priority r = p) l.
Proof.
  induction l as [|x l IH]; simpl; [reflexivity|].
  rewrite sort_insert_filter, !filter_cons, IH. reflexivity.
Qed.

(** The head of a descending list bounds every rule that heads one of its
    priority classes. *)
Lemma sorted_head_bounds x t y l' p :
  StronglySorted priority_ge (x :: t) ->
  filter (fun r => priority r = p) (x :: t) = y :: l' ->
  priority y <= priority x.
Proof.
  intros Hs Hf.
  assert (Hy : y ∈ filter (fun r => priority r = p) (x :: t)).
  { rewrite Hf. apply list_elem_of_here. }
  apply list_elem_of_filter in Hy as [_ Hy].
  apply StronglySorted_inv in Hs as [_ Hall].
  apply elem_of_cons in Hy as [-> | Hy]; [lia|].
  rewrite Forall_forall in Hall. exact (Hall y Hy).
Qed.

(** Descending order with ties in their original order leaves no choice:
    two such arrangements of the same rules are the same list.  Whatever
    stable algorithm the engine runs, its result is [sort by_priority]. *)
Lemma sorted_stable_unique l1 l2 :
  StronglySorted priority_ge l1 ->
  StronglySorted priority_ge l2 ->
  (forall p, filter (fun r => priority r = p) l1
             = filter (fun r => priority r = p) l2) ->
  l1 = l2.
Proof.
  revert l2. induction l1 as [|x t1 IH]; intros [|y t2] S1 S2 Hf.
  - reflexivity.
  - specialize (Hf (priority y)). rewrite filter_cons_True in Hf by reflexivity.
    discriminate Hf.
  - specialize (Hf (priority x)). rewrite filter_cons_True in Hf by reflexivity.
    discriminate Hf.
  - assert (Hyx : priority y <= priority x).
    { pose proof (Hf (priority y)) as H.
      rewrite (filter_cons_True _ y) in H by reflexivity.
      exact (sorted_head_bounds _ _ _ _ _ S1 H). }
    assert (Hxy : priority x <= priority y).
    { pose proof (Hf (priority x)) as H.
      rewrite (filter_cons_True _ x) in H by reflexivity.
      exact (sorted_head_bounds _ _ _ _ _ S2 (eq_sym H)). }
    assert (Hp : priority y = priority x) by lia.
    assert (Hx : x = y).
    { pose proof (Hf (priority x)) as H.
      rewrite (filter_cons_True _ x), (filter_cons_True _ y) in H by done.
      now injection H. }
    subst y. f_equal.
    apply StronglySorted_inv in S1 as [S1 _].
    apply StronglySorted_inv in S2 as [S2 _].
    apply IH; [exact S1 | exact S2 |].
    intros p. specialize (Hf p). rewrite !filter_cons in Hf.
    destruct (decide (priority x = p)); [now injection Hf | exact Hf].
Qed.

Example sort_ties :
  map rule_body
    (sort by_priority
       [mkRule (DEFAULT (VNum 1)) 0; mkRule (DEFAULT (VNum 2)) 7;
        mkRule (DEFAULT (VNum 3)) 0; mkRule (DEFAULT (VNum 4)) 7])
  = [DEFAULT (VNum 2); DEFAULT (VNum 4); DEFAULT (VNum 1); DEFAULT (VNum 3)].
Proof. reflexivity. Qed.

(** ** The flag evaluator *)

Section EngineProperties.

Context (NumberToString : Q -> jsstring) (ObjectToString : N -> option jsstring).
Context (DateParse : jsstring -> JsDate) (ObjectToDate : N -> option JsDate).

#[local] Abbreviation ToString := (ToString NumberToString ObjectToString).
#[local] Abbreviation new_Date := (new_Date DateParse ObjectToDate).
#[local] Abbreviation percentage_seed := (percentage_seed NumberToString ObjectToString).
#[local] Abbreviation claimed_seed := (claimed_seed NumberToString ObjectToString).
#[local] Abbreviation claimed_window := (claimed_window DateParse ObjectToDate).
#[local] Abbreviation evaluateRule :=
  (evaluateRule NumberToString ObjectToString DateParse ObjectToDate).
#[local] Abbreviation rule_matches :=
  (rule_matches NumberToString ObjectToString DateParse ObjectToDate).
#[local] Abbreviation rule_stops :=
  (rule_stops NumberToString ObjectToString DateParse ObjectToDate).
#[local] Abbreviation first_stop :=
  (first_stop NumberToString ObjectToString DateParse ObjectToDate).
#[local] Abbreviation rule_outcome :=
  (rule_outcome NumberToString ObjectToString DateParse ObjectToDate).
#[local] Abbreviation rules_loop :=
  (rules_loop NumberToString ObjectToString DateParse ObjectToDate).
#[local] Abbreviation evaluate :=
  (evaluate NumberToString ObjectToString DateParse ObjectToDate).
#[local] Abbreviation evaluateAllFlags_loop :=
  (evaluateAllFlags_loop NumberToString ObjectToString DateParse ObjectToDate).
#[local] Abbreviation evaluateAllFlags :=
  (evaluateAllFlags NumberToString ObjectToString DateParse ObjectToDate).

Lemma getDefaultValue_present this environment envSettings :
  environments this !! environment = Some envSettings ->
  getDefaultValue this environment
  = Returned (resolveDefault (type this) envSettings).
Proof. intros H. unfold getDefaultValue. now rewrite H. Qed.

(** The conversions throw nothing but a TypeError. *)
Lemma ToString_Thrown v e : ToString v = Thrown e -> e = TypeError.
Proof.
  destruct v as [| |[|]| | | |r]; simpl; try discriminate.
  destruct (ObjectToString r); [discriminate | now intros [= <-]].
Qed.

Lemma new_Date_Thrown v e : new_Date v = Thrown e -> e = TypeError.
Proof.
  destruct v as [| |[|]| | | |r]; simpl; try discriminate.
  destruct (ObjectToDate r); [discriminate | now intros [= <-]].
Qed.

Lemma percentage_seed_Thrown this context e :
  percentage_seed this context = Thrown e -> e = TypeError.
Proof.
  unfold percentage_seed, js_add_string.
  destruct (ToString _) eqn:E; simpl; [discriminate|].
  intros [= <-]. exact (ToString_Thrown _ _ E).
Qed.

Lemma evaluateRule_Thrown this now rule context e :
  evaluateRule this now rule context = Thrown e -> e = TypeError.
Proof.
  unfold evaluateRule.
  destruct (rule_body rule) as [p|segment|startDate endDate|v|]; simpl;
    try discriminate.
  - destruct (percentage_seed this context) eqn:E; simpl; [discriminate|].
    intros [= <-]. exact (percentage_seed_Thrown _ _ _ E).
  - destruct (new_Date startDate) eqn:Es; simpl.
    + destruct (truthy endDate); simpl; [|discriminate].
      destruct (new_Date endDate) eqn:Ee; simpl; [discriminate|].
      intros [= <-]. exact (new_Date_Thrown _ _ Ee).
    + intros [= <-]. exact (new_Date_Thrown _ _ Es).
Qed.

(** The loop stops at a rule that matches. *)
Lemma rule_matches_stops this now context r :
  rule_matches this now context r = true -> rule_stops this now context r = true.
Proof.
  unfold rule_matches, rule_stops.
  now destruct (evaluateRule this now r context).
Qed.

(** A rule at which the loop does not stop has been evaluated, and did not
    match. *)
Lemma rule_stops_false this now context r :
  rule_stops this now context r = false
  <-> exists result, evaluateRule this now r context = Returned result
                     /\ matches result = false.
Proof.
  unfold rule_stops. destruct (evaluateRule this now r context) as [result|e].
  - split; [eauto | now intros (result' & [= <-] & H)].
  - split; [discriminate | now intros (result' & [=] & _)].
Qed.

Lemma rules_loop_first_stop this now context l :
  rules_loop this now context l
  = match first_stop this now context l with
    | Some r => v ← rule_outcome this now context r; mret (Some v)
    | None => Returned None
    end.
Proof.
  unfold first_stop, rule_stops, rule_outcome.
  induction l as [|r l IH]; [reflexivity|].
  simpl rules_loop. simpl find.
  destruct (evaluateRule this now r context) as [result|e] eqn:E; simpl;
    [|now rewrite E].
  destruct (matches result); [now rewrite E | exact IH].
Qed.

Lemma first_stop_None this now context l :
  first_stop this now context l = None
  <-> (forall r, r ∈ l -> rule_stops this now context r = false).
Proof.
  unfold first_stop. split.
  - intros H r Hr. apply list_elem_of_In in Hr.
    exact (find_none _ _ H r Hr).
  - intros H. induction l as [|r l IH]; simpl; [reflexivity|].
    rewrite (H r) by apply list_elem_of_here.
    apply IH. intros r' Hr'. apply H. now apply list_elem_of_further.
Qed.

Lemma first_stop_Some this now context l r :
  first_stop this now context l = Some r ->
  r ∈ l /\ rule_stops this now context r = true.
Proof.
  unfold first_stop. intros H. apply find_some in H as [Hin Hs].
  split; [now apply list_elem_of_In | exact Hs].
Qed.

(** What [evaluate] comes to for an environment the flag has. *)
Lemma evaluate_present this environment context now envSettings :
  environments this !! environment = Some envSettings ->
  evaluate this environment context now
  = if enabled envSettings then
      match first_stop this now context (sort by_priority (rules envSettings)) with
      | Some r => rule_outcome this now context r
      | None => Returned (resolveDefault (type this) envSettings)
      end
    else Returned (resolveDefault (type this) envSettings).
Proof.
  intros H. unfold evaluate. rewrite H.
  rewrite (getDefaultValue_present _ _ _ H).
  destruct (enabled envSettings); simpl; [|reflexivity].
  destruct (rules envSettings) as [|r l] eqn:E; [reflexivity|].
  rewrite rules_loop_first_stop.
  destruct (first_stop this now context (sort by_priority (r :: l))) as [r'|];
    [|reflexivity].
  now destruct (rule_outcome this now context r').
Qed.

(** The outcome of a rule that throws nothing is its value. *)
Lemma rule_outcome_Returned this now context r result :
  evaluateRule this now r context = Returned result ->
  rule_outcome this now context r = Returned (result_value result).
Proof. intros H. unfold rule_outcome. now rewrite H. Qed.

Lemma rule_outcome_Thrown this now context r e :
  rule_outcome this now context r = Thrown e -> e = TypeError.
Proof.
  unfold rule_outcome.
  destruct (evaluateRule this now r context) eqn:E; simpl; [discriminate|].
  intros [= <-]. exact (evaluateRule_Thrown _ _ _ _ _ E).
Qed.

(** [evaluate] throws the environment-not-found error exactly when the
    environment is not a key of the flag's [environments] map.  For an
    environment the flag has, it comes to the default value when the
    environment is disabled, or has no rules, or the loop stops at none of
    them, and to the outcome of the first rule the loop stops at, in priority
    order, otherwise: the value of the rule, or the TypeError that its
    evaluation throws.  When the evaluation of no rule of the environment
    throws, [evaluate] returns a value. *)
Lemma evaluate_outcomes (this : Flag) (environment : jsstring)
    (context : gmap jsstring JsVal) (now : Z) :
  (evaluate this environment context now
     = Thrown (EnvironmentNotFound environment (key this))
   <-> environments this !! environment = None)
  /\ (forall e, evaluate this environment context now = Thrown e ->
        e = EnvironmentNotFound environment (key this) \/ e = TypeError)
  /\ (forall envSettings,
        environments this !! environment = Some envSettings ->
        (enabled envSettings = false
         \/ rules envSettings = []
         \/ (forall r, r ∈ rules envSettings ->
               rule_stops this now context r = false) ->
         evaluate this environment context now
         = Returned (resolveDefault (type this) envSettings))
        /\ (forall r,
              enabled envSettings = true ->
              first_stop this now context
                (sort by_priority (rules envSettings)) = Some r ->
              evaluate this environment context now
              = rule_outcome this now context r)
        /\ ((forall r e, r ∈ rules envSettings ->
               evaluateRule this now r context <> Thrown e) ->
            exists v, evaluate this environment context now = Returned v)).
Proof.
  destruct (environments this !! environment) as [envSettings|] eqn:E.
  - pose proof (evaluate_present this environment context now _ E) as Hev.
    assert (Hthrown : forall e, evaluate this environment context now = Thrown e ->
                                e = TypeError).
    { intros e. rewrite Hev. destruct (enabled envSettings); [|discriminate].
      destruct (first_stop _ _ _ _) as [r|]; [|discriminate].
      apply rule_outcome_Thrown. }
    split; [|split].
    + split; [|discriminate]. intros H. now apply Hthrown in H.
    + intros e He. right. now apply Hthrown.
    + intros es [= <-]. split; [|split].
      * intros [Hd | [Hr | Hn]].
        -- now rewrite Hev, Hd.
        -- rewrite Hev, Hr. simpl. now destruct (enabled envSettings).
        -- assert (Hnone : first_stop this now context
                     (sort by_priority (rules envSettings)) = None).
           { apply first_stop_None. intros r Hr. apply Hn.
             now rewrite <- (sort_perm by_priority (rules envSettings)). }
           rewrite Hev, Hnone. now destruct (enabled envSettings).
      * intros r Hen Hr. now rewrite Hev, Hen, Hr.
      * intros Hno. rewrite Hev. destruct (enabled envSettings); [|eauto].
        destruct (first_stop _ _ _ _) as [r|] eqn:Hr; [|eauto].
        apply first_stop_Some in Hr as [Hin _].
        rewrite (sort_perm by_priority (rules envSettings)) in Hin.
        unfold rule_outcome.
        destruct (evaluateRule this now r context) as [result|e] eqn:Hres;
          [simpl; eauto|].
        now destruct (Hno r e Hin).
  - assert (Hev : evaluate this environment context now
                  = Thrown (EnvironmentNotFound environment (key this))).
    { unfold evaluate. now rewrite E. }
    split; [|split].
    + now rewrite Hev.
    + intros e. rewrite Hev. intros [= <-]. now left.
    + discriminate.
Qed.

(** C1, at an input where the code departs from it: the flag has the
    environment, which is enabled and has a PERCENTAGE rule, and the context
    has as [userId] an object that cannot be converted to a string; then
    [userId + this.key] throws a TypeError, and [evaluate] returns no
    value. *)
Theorem evaluate_unconvertible_userId (this : Flag) (environment : jsstring)
    (context : gmap jsstring JsVal) (now : Z) (envSettings : EnvironmentSettings)
    (p : Q) (prio : Z) (ref : N) :
  environments this !! environment = Some envSettings ->
  enabled envSettings = true ->
  rules envSettings = [mkRule (PERCENTAGE p) prio] ->
  context !! str "userId" = Some (VObj ref) ->
  ObjectToString ref = None ->
  evaluate this environment context now = Thrown TypeError.
Proof.
  intros Henv Hen Hrules Hctx Href.
  rewrite (evaluate_present _ _ _ _ _ Henv), Hen, Hrules.
  unfold first_stop, rule_stops, rule_outcome, evaluateRule, percentage_seed,
    js_add_string, context_get.
  simpl. rewrite Hctx. simpl. now rewrite Href.
Qed.

(** ** The rule matcher *)

Lemma Qlt_bool_iff x y : Qlt_bool x y = true <-> (x < y)%Q.
Proof.
  unfold Qlt_bool. rewrite negb_true_iff.
  split.
  - intros H. apply Qnot_le_lt. intros Hle. apply Qle_bool_iff in Hle. congruence.
  - intros H. destruct (Qle_bool y x) eqn:E; [|reflexivity].
    apply Qle_bool_iff in E. exfalso. exact (Qlt_not_le _ _ H E).
Qed.

(** The seed is the key alone when [userId] is absent or falsy. *)
Lemma percentage_seed_falsy this context :
  truthy (context_get context (str "userId")) = false ->
  percentage_seed this context = Returned (key this).
Proof.
  intros H. unfold percentage_seed, js_or. now rewrite H.
Qed.

Lemma percentage_seed_truthy this context :
  truthy (context_get context (str "userId")) = true ->
  percentage_seed this context
  = (s ← ToString (context_get context (str "userId")); mret (s ++ key this)).
Proof.
  intros H. unfold percentage_seed, js_or. now rewrite H.
Qed.

Lemma percentage_seed_absent this context :
  context !! str "userId" = None ->
  percentage_seed this context = Returned (key this).
Proof.
  intros H. apply percentage_seed_falsy. unfold context_get. now rewrite H.
Qed.

Lemma percentage_seed_string this context s :
  context !! str "userId" = Some (VStr s) ->
  percentage_seed this context = Returned (s ++ key this).
Proof.
  intros H. unfold percentage_seed, context_get. rewrite H. simpl.
  now destruct s.
Qed.

(** What the PERCENTAGE branch returns, given the seed. *)
Lemma evaluateRule_PERCENTAGE this now p prio context :
  evaluateRule this now (mkRule (PERCENTAGE p) prio) context
  = (seed ← percentage_seed this context;
     mret {| matches := Qlt_bool (inject_Z (normalizedHash seed)) p;
             result_value := VBool true |}).
Proof. reflexivity. Qed.

(** C3, as the code has it: a PERCENTAGE rule with threshold [p] matches
    exactly when the bucket of the seed is strictly below [p]; the seed is
    the flag's key alone when the context has no [userId] or a falsy one
    (null, [false], 0, NaN, the empty string), and the [userId], converted to
    a string, followed by the key otherwise, in particular when it is a
    string; the emitted value is [true]; a bucket equal to the threshold
    does not match, so that with threshold 50 bucket 49 matches and bucket 50
    does not.  When the conversion of [userId] throws, so does the rule. *)
Theorem percentage_rule_spec (this : Flag) (now : Z) (p : Q) (prio : Z)
    (context : gmap jsstring JsVal) :
  (truthy (context_get context (str "userId")) = false ->
     percentage_seed this context = Returned (key this))
  /\ (truthy (context_get context (str "userId")) = true ->
        percentage_seed this context
        = (s ← ToString (context_get context (str "userId"));
           mret (s ++ key this)))
  /\ (forall s, context !! str "userId" = Some (VStr s) ->
        percentage_seed this context = Returned (s ++ key this))
  /\ (forall seed,
        percentage_seed this context = Returned seed ->
        exists result,
          evaluateRule this now (mkRule (PERCENTAGE p) prio) context
          = Returned result
          /\ (matches result = true <-> (inject_Z (Reference.bucket seed) < p)%Q)
          /\ result_value result = VBool true
          /\ ((inject_Z (Reference.bucket seed) == p)%Q -> matches result = false)
          /\ ((p == 50)%Q -> Reference.bucket seed = 49 -> matches result = true)
          /\ ((p == 50)%Q -> Reference.bucket seed = 50 -> matches result = false))
  /\ (forall e,
        percentage_seed this context = Thrown e ->
        evaluateRule this now (mkRule (PERCENTAGE p) prio) context = Thrown e).
Proof.
  split; [apply percentage_seed_falsy|].
  split; [apply percentage_seed_truthy|].
  split; [apply percentage_seed_string|].
  split; [|intros e He; rewrite evaluateRule_PERCENTAGE; now rewrite He].
  intros seed Hseed. rewrite evaluateRule_PERCENTAGE, Hseed. simpl.
  eexists. split; [reflexivity|]. simpl.
  assert (Hiff : Qlt_bool (inject_Z (normalizedHash seed)) p = true
                 <-> (inject_Z (Reference.bucket seed) < p)%Q).
  { rewrite Qlt_bool_iff, normalizedHash_bucket. reflexivity. }
  assert (Hnot : forall b, ~ (inject_Z b < p)%Q ->
                 Reference.bucket seed = b ->
                 Qlt_bool (inject_Z (normalizedHash seed)) p = false).
  { intros b Hb Hs.
    destruct (Qlt_bool (inject_Z (normalizedHash seed)) p) eqn:E; [|reflexivity].
    exfalso. apply Hb. rewrite <- Hs. now apply Hiff. }
  split; [exact Hiff|].
  split; [reflexivity|].
  split; [|split].
  - intros Heq. apply (Hnot (Reference.bucket seed)); [|reflexivity].
    rewrite Heq. apply Qlt_irrefl.
  - intros Hp Hb. apply Hiff. rewrite Hb, Hp. reflexivity.
  - intros Hp Hb. apply (Hnot 50); [|exact Hb]. rewrite Hp. apply Qlt_irrefl.
Qed.

(** What the USER_SEGMENT loop computes: every required attribute must be
    truthy in the context and strictly equal to the required value. *)
Lemma segment_loop_spec context entries :
  segment_loop context entries = true
  <-> Forall (fun kv => truthy (context_get context kv.1) = true
                        /\ strict_equals (context_get context kv.1) kv.2 = true)
             entries.
Proof.
  induction entries as [|[k v] entries IH]; simpl.
  - split; [constructor | reflexivity].
  - rewrite Forall_cons. simpl.
    destruct (truthy (context_get context k)); simpl.
    + destruct (strict_equals (context_get context k) v); simpl.
      * rewrite IH.
        split; [intros H; split; [split; reflexivity | exact H] | now intros [_ H]].
      * split; [discriminate | intros [[_ H] _]; discriminate].
    + split; [discriminate | intros [[H _] _]; discriminate].
Qed.

(** A segment rule that matches has all its keys present in the context,
    with strictly equal values. *)
Lemma segment_match_claimed context entries :
  segment_loop context entries = true -> segment_claimed context entries.
Proof.
  rewrite segment_loop_spec. unfold segment_claimed.
  intros H. eapply Forall_impl; [exact H|].
  intros [k v]. simpl. intros [Ht He]. split; [|exact He].
  unfold context_get in Ht. destruct (context !! k); [eauto | discriminate].
Qed.

(** A context that lacks a required key does not match. *)
Lemma segment_missing_key context entries k v :
  (k, v) ∈ entries -> context !! k = None ->
  segment_loop context entries = false.
Proof.
  intros Hin Hk. destruct (segment_loop context entries) eqn:E; [|reflexivity].
  apply segment_loop_spec in E. rewrite Forall_forall in E.
  destruct (E _ Hin) as [Ht _]. simpl in Ht.
  unfold context_get in Ht. rewrite Hk in Ht. discriminate.
Qed.

(** C5, at an input where the code departs from it: the segment requires
    [beta] to be [false] and the context has [beta: false], so the key is
    present and strictly equal, and yet the rule does not match, because
    [!context[key]] holds of a falsy value.  The same happens for the
    required values [0] and the empty string. *)
Theorem user_segment_falsy_required_value (this : Flag) (now prio : Z) :
  let segment := [(str "beta", VBool false)] in
  let context : gmap jsstring JsVal := {[ str "beta" := VBool false ]} in
  segment_claimed context segment
  /\ evaluateRule this now (mkRule (USER_SEGMENT segment) prio) context
     = Returned {| matches := false; result_value := VBool true |}.
Proof.
  split; [|reflexivity].
  apply Forall_cons. split; [|constructor]. simpl. split.
  - exists (VBool false). apply lookup_singleton_eq.
  - unfold context_get. now rewrite lookup_singleton_eq.
Qed.

(** The scenario of the specification: [region] is missing. *)
Example user_segment_region_missing (this : Flag) (now : Z) :
  rule_matches this now {[ str "plan" := VStr (str "pro") ]}
    (mkRule (USER_SEGMENT [(str "plan", VStr (str "pro"));
                           (str "region", VStr (str "us"))]) 0)
  = false.
Proof. reflexivity. Qed.

Example user_segment_all_present (this : Flag) (now : Z) :
  rule_matches this now
    (<[ str "region" := VStr (str "us") ]> {[ str "plan" := VStr (str "pro") ]})
    (mkRule (USER_SEGMENT [(str "plan", VStr (str "pro"));
                           (str "region", VStr (str "us"))]) 0)
  = true.
Proof. reflexivity. Qed.

(** What the SCHEDULED branch returns, given the two dates. *)
Lemma evaluateRule_SCHEDULED this now prio context startDate endDate start :
  new_Date startDate = Returned start ->
  (truthy endDate = false ->
   evaluateRule this now (mkRule (SCHEDULED startDate endDate) prio) context
   = Returned {| matches := date_ge now start && true;
                 result_value := VBool true |})
  /\ (forall end_,
        truthy endDate = true -> new_Date endDate = Returned end_ ->
        evaluateRule this now (mkRule (SCHEDULED startDate endDate) prio) context
        = Returned {| matches := date_ge now start && date_le now end_;
                      result_value := VBool true |}).
Proof.
  intros Hs. unfold evaluateRule. simpl. rewrite Hs. simpl. split.
  - now intros ->.
  - intros end_ -> He. simpl. now rewrite He.
Qed.

(** C6, as the code has it: a SCHEDULED rule whose start date is a valid
    date matches exactly when the current time is not before the start and
    the end date is falsy (the rule has none, or it is null, [false], 0, NaN
    or the empty string) or is a date that the current time is not after; it
    emits [true].  A rule with an invalid start date, or with a truthy end
    date that is an invalid date, never matches. *)
Theorem scheduled_rule_spec (this : Flag) (now prio : Z)
    (context : gmap jsstring JsVal) :
  (forall startDate endDate s,
     new_Date startDate = Returned (DateMs s) ->
     truthy endDate = false \/ (exists d, new_Date endDate = Returned d) ->
     exists result,
       evaluateRule this now (mkRule (SCHEDULED startDate endDate) prio) context
       = Returned result
       /\ (matches result = true
           <-> s <= now
               /\ (truthy endDate = false
                   \/ exists e, new_Date endDate = Returned (DateMs e) /\ now <= e))
       /\ result_value result = VBool true)
  /\ (forall startDate endDate,
        new_Date startDate = Returned InvalidDate ->
        rule_matches this now context (mkRule (SCHEDULED startDate endDate) prio)
        = false)
  /\ (forall startDate endDate,
        truthy endDate = true ->
        new_Date endDate = Returned InvalidDate ->
        rule_matches this now context (mkRule (SCHEDULED startDate endDate) prio)
        = false)
  /\ (forall startDate endDate result,
        evaluateRule this now (mkRule (SCHEDULED startDate endDate) prio) context
        = Returned result ->
        result_value result = VBool true).
Proof.
  split; [|split; [|split]].
  - intros startDate endDate s Hs Hend.
    destruct (evaluateRule_SCHEDULED this now prio context _ endDate _ Hs)
      as [Hfalsy Htruthy].
    destruct (truthy endDate) eqn:Ht.
    + destruct Hend as [Hend | [d Hd]]; [discriminate|].
      rewrite (Htruthy d eq_refl Hd). eexists. split; [reflexivity|].
      split; [|reflexivity]. simpl.
      rewrite andb_true_iff, Z.leb_le. split.
      * intros [H1 H2]. split; [exact H1|]. right.
        destruct d as [|e]; [discriminate|]. simpl in H2. apply Z.leb_le in H2.
        eauto.
      * intros [H1 [H2 | (e & He & H2)]]; [discriminate|].
        split; [exact H1|]. rewrite Hd in He. injection He as ->.
        simpl. now apply Z.leb_le.
    + rewrite (Hfalsy eq_refl). eexists. split; [reflexivity|].
      split; [|reflexivity]. simpl.
      rewrite andb_true_r, Z.leb_le. split; [intros H; split; [exact H | now left]|].
      now intros [H _].
  - intros startDate endDate Hs. unfold rule_matches, evaluateRule. simpl.
    rewrite Hs. simpl.
    destruct (truthy endDate); simpl; [|reflexivity].
    now destruct (new_Date endDate).
  - intros startDate endDate Ht He. unfold rule_matches, evaluateRule. simpl.
    destruct (new_Date startDate) as [start|]; simpl; [|reflexivity].
    rewrite Ht. simpl. rewrite He. simpl. apply andb_false_r.
  - intros startDate endDate result. unfold evaluateRule. simpl.
    destruct (new_Date startDate) as [start|]; simpl; [|discriminate].
    destruct (truthy endDate); simpl.
    + destruct (new_Date endDate); simpl; [|discriminate]. now intros [= <-].
    + now intros [= <-].
Qed.

(** The scenario of the specification: a window from 2024-01-01 to
    2024-01-31, whatever the two strings are, provided they parse to the
    midnights they name (their milliseconds since the epoch, in UTC),
    matches on 2024-01-15 and not on 2024-02-01. *)
Example scheduled_window (this : Flag) (startDate endDate : jsstring) :
  DateParse startDate = DateMs 1704067200000 ->
  DateParse endDate = DateMs 1706659200000 ->
  endDate <> [] ->
  let rule := mkRule (SCHEDULED (VStr startDate) (VStr endDate)) 0 in
  rule_matches this 1705276800000 ∅ rule = true
  /\ rule_matches this 1706745600000 ∅ rule = false.
Proof.
  intros Hs He Hne. unfold rule_matches, evaluateRule. simpl.
  destruct endDate as [|c endDate]; [congruence|]. simpl.
  now rewrite Hs, He.
Qed.

(** ** The default value resolver *)

(** C7: for a BOOLEAN flag the default is the environment's [value] if it is
    defined and [false] otherwise; for the other types, with variations, it is
    the value of the variation whose key is [defaultVariation], and the value
    of the first variation when [defaultVariation] is unset; without
    variations it is [value] if defined and [null] otherwise. *)
Theorem resolveDefault_spec (flagType : FlagType) (envSettings : EnvironmentSettings) :
  (flagType = BOOLEAN ->
     (value envSettings <> VUndefined ->
        resolveDefault flagType envSettings = value envSettings)
     /\ (value envSettings = VUndefined ->
           resolveDefault flagType envSettings = VBool false))
  /\ (flagType <> BOOLEAN -> variations envSettings <> [] ->
        (forall k variation,
           defaultVariation envSettings = Some k -> k <> [] ->
           find (fun v => bool_decide (variation_key v = k))
                (variations envSettings) = Some variation ->
           resolveDefault flagType envSettings = variation_value variation)
        /\ (forall first rest,
              is_unset (defaultVariation envSettings) ->
              variations envSettings = first :: rest ->
              resolveDefault flagType envSettings = variation_value first))
  /\ (flagType <> BOOLEAN -> variations envSettings = [] ->
        (value envSettings <> VUndefined ->
           resolveDefault flagType envSettings = value envSettings)
        /\ (value envSettings = VUndefined ->
              resolveDefault flagType envSettings = VNull)).
Proof.
  split; [|split].
  - intros ->. simpl. split.
    + intros H. now destruct (value envSettings).
    + now intros ->.
  - intros Hty Hvars.
    assert (E : resolveDefault flagType envSettings =
                match variations envSettings with
                | first :: _ =>
                    let defaultKey :=
                      match defaultVariation envSettings with
                      | Some (c :: k) => c :: k
                      | _ => variation_key first
                      end in
                    match find (fun v => bool_decide (variation_key v = defaultKey))
                               (variations envSettings) with
                    | Some variation => variation_value variation
                    | None => VNull
                    end
                | [] => VNull
                end).
    { destruct flagType; try congruence; simpl;
        now destruct (variations envSettings). }
    split.
    + intros k variation Hk Hne Hfind. rewrite E.
      destruct (variations envSettings) as [|first rest]; [congruence|].
      rewrite Hk. destruct k as [|c k]; [congruence|]. simpl in *.
      now rewrite Hfind.
    + intros first rest Hunset Hv. rewrite E, Hv.
      assert (Hkey : match defaultVariation envSettings with
                     | Some (c :: k) => c :: k
                     | _ => variation_key first
                     end = variation_key first).
      { destruct Hunset as [-> | ->]; reflexivity. }
      simpl. rewrite Hkey. now rewrite bool_decide_eq_true_2.
  - intros Hty Hvars. split.
    + intros H. destruct flagType; try congruence; simpl; rewrite Hvars;
        now destruct (value envSettings).
    + intros H. destruct flagType; try congruence; simpl; now rewrite Hvars, H.
Qed.

(** The variation fallback chain of the specification. *)
Example resolveDefault_first_variation :
  resolveDefault NUMBER
    {| enabled := true; rules := []; value := VUndefined;
       variations := [mkVariation (str "A") (VNum 1); mkVariation (str "B") (VNum 2)];
       defaultVariation := None |}
  = VNum 1.
Proof. reflexivity. Qed.



(** ** Priority order *)


(** ** Independence from the metrics *)

Lemma evaluateRule_same_key this that now rule context :
  key this = key that ->
  evaluateRule this now rule context = evaluateRule that now rule context.
Proof.
  intros Hk. unfold evaluateRule, percentage_seed.
  now rewrite Hk.
Qed.

Lemma rules_loop_same_key this that now context l :
  key this = key that ->
  rules_loop this now context l = rules_loop that now context l.
Proof.
  intros Hk. induction l as [|r l IH]; simpl; [reflexivity|].
  now rewrite (evaluateRule_same_key this that), IH.
Qed.

Lemma evaluate_same_definition this that environment context now :
  key this = key that ->
  type this = type that ->
  environments this = environments that ->
  evaluate this environment context now = evaluate that environment context now.
Proof.
  intros Hk Ht He. unfold evaluate, getDefaultValue.
  rewrite Hk, Ht, He.
  destruct (environments that !! environment) as [envSettings|]; [|reflexivity].
  destruct (enabled envSettings); simpl; [|reflexivity].
  destruct (rules envSettings) as [|r l]; [reflexivity|].
  now rewrite (rules_loop_same_key this that).
Qed.

(** C9: with the time held fixed, [evaluate] applied twice to the same flag,
    environment and context gives the same result, also when the flag's
    metrics have changed in between, by a recorded evaluation or in any
    other way. *)
Theorem evaluate_idempotent (this : Flag) (environment : jsstring)
    (context : gmap jsstring JsVal) (now : Z) (m : Metrics) (date : Z) :
  evaluate (with_metrics this m) environment context now
  = evaluate this environment context now
  /\ evaluate (recordEvaluation this date) environment context now
     = evaluate this environment context now.
Proof.
  split; now apply evaluate_same_definition.
Qed.

(** ** Bulk evaluation *)

Lemma object_set_lookup_ne (object : gmap jsstring JsVal) k v k' :
  k' <> k -> object_set object k v !! k' = object !! k'.
Proof.
  intros H. unfold object_set. case_bool_decide; [reflexivity|].
  now rewrite lookup_insert_ne.
Qed.

Lemma object_set_lookup (object : gmap jsstring JsVal) k v :
  object_set object k v !! k
  = if bool_decide (k = str "__proto__") then object !! k else Some v.
Proof.
  unfold object_set. case_bool_decide; [reflexivity|].
  apply lookup_insert_eq.
Qed.

Lemma object_set_proto (object : gmap jsstring JsVal) k v :
  object_set object k v !! str "__proto__" = object !! str "__proto__".
Proof.
  unfold object_set. case_bool_decide; [reflexivity|].
  now apply lookup_insert_ne.
Qed.

(** One turn of the loop: the [try] block assigns the flag's value to the
    property of its key, the [catch] block leaves [results] as it was. *)
Lemma evaluateAllFlags_loop_cons flag rest environment context now results :
  evaluateAllFlags_loop (flag :: rest) environment context now results
  = evaluateAllFlags_loop rest environment context now
      match evaluate flag environment context now with
      | Returned v => object_set results (key flag) v
      | Thrown _ => results
      end.
Proof.
  simpl. now destruct (evaluate flag environment context now).
Qed.

Lemma evaluateAllFlags_loop_returns flags environment context now results :
  exists results',
    evaluateAllFlags_loop flags environment context now results = Returned results'.
Proof.
  revert results. induction flags as [|flag rest IH]; intros results.
  - now exists results.
  - rewrite evaluateAllFlags_loop_cons. apply IH.
Qed.

Lemma evaluateAllFlags_loop_lookup flags environment context now :
  forall (results results' : gmap jsstring JsVal),
  evaluateAllFlags_loop flags environment context now results = Returned results' ->
  (forall k, k ∉ key <$> flags -> results' !! k = results !! k)
  /\ (forall k, is_Some (results !! k) -> is_Some (results' !! k))
  /\ results' !! str "__proto__" = results !! str "__proto__"
  /\ (forall flag v, flag ∈ flags ->
        key flag <> str "__proto__" ->
        evaluate flag environment context now = Returned v ->
        is_Some (results' !! key flag))
  /\ (forall k v, results' !! k = Some v ->
        results !! k = Some v
        \/ exists flag, flag ∈ flags /\ key flag = k /\ k <> str "__proto__"
                        /\ evaluate flag environment context now = Returned v)
  /\ (NoDup (key <$> flags) ->
      forall flag, flag ∈ flags ->
        results' !! key flag
        = match evaluate flag environment context now with
          | Returned v =>
              if bool_decide (key flag = str "__proto__")
              then results !! key flag else Some v
          | Thrown _ => results !! key flag
          end).
Proof.
  induction flags as [|flag rest IH]; intros results results' Hloop.
  - simpl in Hloop. injection Hloop as <-.
    repeat split; try done.
    + intros flag v Hin. now apply elem_of_nil in Hin.
    + intros k v Hk. now left.
    + intros _ flag Hin. now apply elem_of_nil in Hin.
  - rewrite evaluateAllFlags_loop_cons in Hloop.
    set (results1 := match evaluate flag environment context now with
                     | Returned v => object_set results (key flag) v
                     | Thrown _ => results
                     end) in *.
    destruct (IH _ _ Hloop) as (IH1 & IH2 & IHp & IH3 & IH4 & IH5).
    assert (Hne : forall k, k <> key flag -> results1 !! k = results !! k).
    { intros k Hk. subst results1.
      destruct (evaluate flag environment context now); [|reflexivity].
      now apply object_set_lookup_ne. }
    assert (Hhere : results1 !! key flag
                    = match evaluate flag environment context now with
                      | Returned v =>
                          if bool_decide (key flag = str "__proto__")
                          then results !! key flag else Some v
                      | Thrown _ => results !! key flag
                      end).
    { subst results1.
      destruct (evaluate flag environment context now); [|reflexivity].
      apply object_set_lookup. }
    assert (Hmono : forall k, is_Some (results !! k) -> is_Some (results1 !! k)).
    { intros k Hk. destruct (decide (k = key flag)) as [-> | Hd].
      - rewrite Hhere. destruct (evaluate flag environment context now); [|exact Hk].
        case_bool_decide; [exact Hk | eauto].
      - now rewrite (Hne k Hd). }
    assert (Hproto : results1 !! str "__proto__" = results !! str "__proto__").
    { subst results1.
      destruct (evaluate flag environment context now); [|reflexivity].
      apply object_set_proto. }
    rewrite fmap_cons.
    split; [|split; [|split; [|split; [|split]]]].
    + intros k Hk. apply not_elem_of_cons in Hk as [Hk1 Hk2].
      rewrite (IH1 k Hk2). now apply Hne.
    + intros k Hk. apply IH2, Hmono, Hk.
    + now rewrite IHp.
    + intros flag0 v Hin Hkey Hev. apply elem_of_cons in Hin as [-> | Hin].
      * apply IH2. rewrite Hhere, Hev.
        rewrite bool_decide_eq_false_2 by exact Hkey. eauto.
      * eapply IH3; eauto.
    + intros k v Hk. destruct (IH4 k v Hk) as [Hk1 | (flag0 & Hin & Hkey & Hnp & Hev)].
      * destruct (decide (k = key flag)) as [-> | Hd].
        -- rewrite Hhere in Hk1.
           destruct (evaluate flag environment context now) as [v'|] eqn:Hev.
           ++ case_bool_decide as Hp; [now left|].
              injection Hk1 as ->. right. exists flag.
              split; [apply list_elem_of_here | now repeat split].
           ++ now left.
        -- left. now rewrite <- (Hne k Hd).
      * right. exists flag0. split; [now apply list_elem_of_further | now repeat split].
    + intros Hnd flag0 Hin. apply NoDup_cons in Hnd as [Hnotin Hnd].
      apply elem_of_cons in Hin as [-> | Hin].
      * rewrite (IH1 _ Hnotin). exact Hhere.
      * assert (Hk : key flag0 <> key flag).
        { intros Heq. apply Hnotin. rewrite <- Heq.
          now apply list_elem_of_fmap_2. }
        rewrite (IH5 Hnd flag0 Hin), (Hne _ Hk). reflexivity.
Qed.

(** [evaluateAllFlags] always returns a mapping, which has no property
    [__proto__]; every flag that evaluates and whose key is not [__proto__]
    has its key in it, and every entry of the mapping is the value of a flag
    of the list that evaluated; when the keys of the flags are distinct, as
    they are within a project, a flag whose evaluation throws has no entry
    and a flag that evaluates, with a key other than [__proto__], has its own
    value as entry, wherever the failing flags stand in the list. *)
Lemma evaluateAllFlags_entries (flags : list Flag) (environment : jsstring)
    (context : gmap jsstring JsVal) (now : Z) :
  exists results : gmap jsstring JsVal,
    evaluateAllFlags flags environment context now = Returned results
    /\ results !! str "__proto__" = None
    /\ (forall flag v, flag ∈ flags ->
          key flag <> str "__proto__" ->
          evaluate flag environment context now = Returned v ->
          is_Some (results !! key flag))
    /\ (forall k v, results !! k = Some v ->
          exists flag, flag ∈ flags /\ key flag = k
                       /\ evaluate flag environment context now = Returned v)
    /\ (NoDup (key <$> flags) ->
        forall flag, flag ∈ flags ->
          (forall e, evaluate flag environment context now = Thrown e ->
             results !! key flag = None)
          /\ (forall v, evaluate flag environment context now = Returned v ->
                key flag <> str "__proto__" ->
                results !! key flag = Some v)).
Proof.
  destruct (evaluateAllFlags_loop_returns flags environment context now ∅)
    as [results Hres].
  exists results. split; [exact Hres|].
  destruct (evaluateAllFlags_loop_lookup _ _ _ _ _ _ Hres)
    as (_ & _ & Hp & H3 & H4 & H5).
  split; [now rewrite Hp|].
  split; [exact H3|]. split.
  - intros k v Hk. destruct (H4 k v Hk) as [Hempty | (flag & H1 & H2 & _ & H6)].
    + now rewrite lookup_empty in Hempty.
    + exists flag. now repeat split.
  - intros Hnd flag Hin. rewrite (H5 Hnd flag Hin). split.
    + intros e ->. apply lookup_empty.
    + intros v -> Hkey. now rewrite bool_decide_eq_false_2.
Qed.

(** C8, at an input where the code departs from it: a flag whose key is
    [__proto__] evaluates, and yet the mapping [evaluateAllFlags] returns
    has no entry for it, whatever the other flags are: the assignment
    [results[flag.key] = result] makes no property of that name. *)
Theorem evaluateAllFlags_proto_key (flags : list Flag) (environment : jsstring)
    (context : gmap jsstring JsVal) (now : Z) (flag : Flag) (v : JsVal) :
  flag ∈ flags ->
  key flag = str "__proto__" ->
  evaluate flag environment context now = Returned v ->
  exists results : gmap jsstring JsVal,
    evaluateAllFlags flags environment context now = Returned results
    /\ results !! key flag = None.
Proof.
  intros Hin Hkey Hev.
  destruct (evaluateAllFlags_loop_returns flags environment context now ∅)
    as [results Hres].
  exists results. split; [exact Hres|].
  destruct (evaluateAllFlags_loop_lookup _ _ _ _ _ _ Hres)
    as (_ & _ & Hp & _).
  now rewrite Hkey, Hp.
Qed.

End EngineProperties.

(** * The properties at sample inputs *)

Lemma evaluate_unconvertible_userId_witness :
  environments F4 !! str "production" = Some rollout_settings
  /\ unconvertible_context !! str "userId" = Some (VObj 0)
  /\ sample_object 0 = None
  /\ evaluate sample_number sample_object sample_parse sample_date
       F4 (str "production") unconvertible_context 0
     = Thrown TypeError.
Proof.
  split; [reflexivity|]. split; [reflexivity|]. split; [reflexivity|].
  apply (evaluate_unconvertible_userId sample_number sample_object sample_parse
           sample_date F4 (str "production") unconvertible_context 0
           rollout_settings 50 0 0%N); reflexivity.
Defined.

(** The same flag evaluates for a context whose [userId] is a string. *)
Example evaluate_string_userId :
  evaluate sample_number sample_object sample_parse sample_date
    F4 (str "production") (user_context "user-42") 0
  = Returned (VBool true).
Proof. reflexivity. Qed.

(** C3 fails for a context whose [userId] is the number 0: the seed of the
    specification is ["0new-checkout"], of bucket 81, so a rule with
    threshold 70 should not match; the code takes 0 for an absent [userId]
    and hashes the key alone, of bucket 67, and the rule matches. *)
Lemma percentage_rule_falsy_userId :
  claimed_seed sample_number sample_object F1 {[ str "userId" := VNum 0 ]}
  = Returned (str "0new-checkout")
  /\ Reference.bucket (str "0new-checkout") = 81
  /\ Qlt_bool (inject_Z 81) 70 = false
  /\ percentage_seed sample_number sample_object F1 {[ str "userId" := VNum 0 ]}
     = Returned (str "new-checkout")
  /\ Reference.bucket (str "new-checkout") = 67
  /\ evaluateRule sample_number sample_object sample_parse sample_date F1 0
       (mkRule (PERCENTAGE 70) 0) {[ str "userId" := VNum 0 ]}
     = Returned {| matches := true; result_value := VBool true |}.
Proof. repeat split; reflexivity. Qed.

Lemma percentage_rule_spec_witness :
  Reference.bucket (str "user-228new-checkout") = 49
  /\ Reference.bucket (str "user-34new-checkout") = 50
  /\ rule_matches sample_number sample_object sample_parse sample_date F1 0
       (user_context "user-228") (mkRule (PERCENTAGE 50) 0) = true
  /\ rule_matches sample_number sample_object sample_parse sample_date F1 0
       (user_context "user-34") (mkRule (PERCENTAGE 50) 0) = false.
Proof.
  split; [reflexivity|]. split; [reflexivity|].
  pose proof (percentage_rule_spec sample_number sample_object sample_parse
                sample_date F1 0 50 0 (user_context "user-228"))
    as (_ & _ & _ & H228 & _).
  pose proof (percentage_rule_spec sample_number sample_object sample_parse
                sample_date F1 0 50 0 (user_context "user-34"))
    as (_ & _ & _ & H34 & _).
  destruct (H228 (str "user-228new-checkout") eq_refl)
    as (r1 & Hr1 & _ & _ & _ & H49 & _).
  destruct (H34 (str "user-34new-checkout") eq_refl)
    as (r2 & Hr2 & _ & _ & _ & _ & H50).
  unfold rule_matches. rewrite Hr1, Hr2. split.
  - apply H49; reflexivity.
  - apply H50; reflexivity.
Defined.


(** C6 fails for a rule whose end date is the number 0, the epoch: at time
    5, after the end, the specification has no match; the code takes 0 for
    an absent end date, and the rule matches. *)
Lemma scheduled_rule_falsy_endDate :
  new_Date sample_parse sample_date (VNum (-1000)) = Returned (DateMs (-1000))
  /\ new_Date sample_parse sample_date (VNum 0) = Returned (DateMs 0)
  /\ claimed_window sample_parse sample_date 5 (VNum (-1000)) (VNum 0)
     = Returned false
  /\ evaluateRule sample_number sample_object sample_parse sample_date F1 5
       (mkRule (SCHEDULED (VNum (-1000)) (VNum 0)) 0) ∅
     = Returned {| matches := true; result_value := VBool true |}.
Proof. repeat split; reflexivity. Qed.

Lemma scheduled_rule_spec_witness :
  new_Date sample_parse sample_date (VStr (str "2024-01-01"))
  = Returned (DateMs 1704067200000)
  /\ new_Date sample_parse sample_date (VStr (str "2024-01-31"))
     = Returned (DateMs 1706659200000)
  /\ exists result,
       evaluateRule sample_number sample_object sample_parse sample_date
         F1 1705276800000
         (mkRule (SCHEDULED (VStr (str "2024-01-01")) (VStr (str "2024-01-31"))) 0)
         pro_context
       = Returned result
       /\ matches result = true.
Proof.
  split; [reflexivity|]. split; [reflexivity|].
  destruct (scheduled_rule_spec sample_number sample_object sample_parse
              sample_date F1 1705276800000 0 pro_context) as (Hvalid & _).
  destruct (Hvalid (VStr (str "2024-01-01")) (VStr (str "2024-01-31"))
              1704067200000 eq_refl
              (or_intror (ex_intro _ (DateMs 1706659200000) eq_refl)))
    as (result & Hres & Hiff & _).
  exists result. split; [exact Hres|].
  apply Hiff. split; [lia|]. right. exists 1706659200000.
  split; [reflexivity | lia].
Defined.

Lemma resolveDefault_spec_witness :
  STRING <> BOOLEAN
  /\ variations sample_settings <> []
  /\ is_unset (defaultVariation sample_settings)
  /\ resolveDefault STRING sample_settings = VNum 1.
Proof.
  split; [discriminate|]. split; [discriminate|]. split; [now left|].
  destruct (resolveDefault_spec STRING sample_settings) as (_ & Hvariations & _).
  destruct (Hvariations ltac:(discriminate) ltac:(discriminate)) as (_ & Hfirst).
  apply (Hfirst (mkVariation (str "A") (VNum 1)) [mkVariation (str "B") (VNum 2)]);
    [now left | reflexivity].
Defined.

Lemma evaluateAllFlags_proto_key_witness :
  F5 ∈ [F2; F5; F1]
  /\ key F5 = str "__proto__"
  /\ evaluate sample_number sample_object sample_parse sample_date
       F5 (str "production") pro_context 0 = Returned (VBool false)
  /\ exists results : gmap jsstring JsVal,
       evaluateAllFlags sample_number sample_object sample_parse sample_date
         [F2; F5; F1] (str "production") pro_context 0 = Returned results
       /\ results !! key F5 = None.
Proof.
  assert (Hin : F5 ∈ [F2; F5; F1]).
  { apply list_elem_of_further, list_elem_of_here. }
  split; [exact Hin|]. split; [reflexivity|]. split; [reflexivity|].
  apply (evaluateAllFlags_proto_key sample_number sample_object sample_parse
           sample_date [F2; F5; F1] (str "production") pro_context 0 F5
           (VBool false) Hin eq_refl eq_refl).
Defined.


(** The bulk isolation scenario, computed; and what the loop makes of the
    flag [__proto__]. *)
Example evaluateAllFlags_scenario :
  evaluateAllFlags sample_number sample_object sample_parse sample_date [F1; F2]
    (str "production") pro_context 0
  = Returned {[ str "new-checkout" := VBool true ]}.
Proof. reflexivity. Qed.

Example evaluateAllFlags_proto_scenario :
  evaluateAllFlags sample_number sample_object sample_parse sample_date [F2; F5; F1]
    (str "production") pro_context 0
  = Returned {[ str "new-checkout" := VBool true ]}.
Proof. reflexivity. Qed.

(** * Further properties of the engine and of the code around it *)

Lemma normalizedHash_bounds s : 0 <= normalizedHash s < 100.
Proof.
  rewrite normalizedHash_bucket. unfold Reference.bucket.
  apply Z.mod_pos_bound. reflexivity.
Qed.

Lemma find_split {A} (P : A -> bool) l x :
  find P l = Some x ->
  exists l1 l2, l = l1 ++ x :: l2 /\ Forall (fun y => P y = false) l1 /\ P x = true.
Proof.
  induction l as [|y l IH]; simpl; [discriminate|].
  destruct (P y) eqn:E.
  - intros [= ->]. exists [], l. repeat split; [constructor | exact E].
  - intros H. destruct (IH H) as (l1 & l2 & -> & Hl1 & Hx).
    exists (y :: l1), l2. repeat split; [now constructor | exact Hx].
Qed.

Lemma find_head_filter {A} (P : A -> bool) l :
  find P l = head (filter (fun y => P y = true) l).
Proof.
  induction l as [|y l IH]; simpl; [reflexivity|].
  rewrite filter_cons. destruct (P y) eqn:E.
  - now rewrite decide_True.
  - now rewrite decide_False by congruence.
Qed.

Lemma sorted_filter (P : Rule -> Prop) `{!forall r, Decision (P r)} l :
  StronglySorted priority_ge l -> StronglySorted priority_ge (filter P l).
Proof.
  induction 1 as [|x l Hl IH Hx]; [constructor|].
  rewrite filter_cons. destruct (decide (P x)); [|exact IH].
  constructor; [exact IH|].
  rewrite Forall_forall in *. intros y Hy.
  apply list_elem_of_filter in Hy as [_ Hy]. now apply Hx.
Qed.

(** Sorting and discarding commute: the sorted list restricted to the rules
    that satisfy a test is the sorted list of those rules. *)
Lemma sort_filter_commute (P : Rule -> Prop) `{!forall r, Decision (P r)} l :
  filter P (sort by_priority l) = sort by_priority (filter P l).
Proof.
  apply sorted_stable_unique.
  - apply sorted_filter, sort_sorted.
  - apply sort_sorted.
  - intros p. rewrite sort_stable.
    rewrite !list_filter_filter.
    rewrite !(list_filter_iff (fun r => priority r = p /\ P r)
                (fun r => P r /\ priority r = p)) by (intros; tauto).
    rewrite <- !(list_filter_filter P). now rewrite sort_stable.
Qed.

Section MoreEngineProperties.

Context (NumberToString : Q -> jsstring) (ObjectToString : N -> option jsstring).
Context (DateParse : jsstring -> JsDate) (ObjectToDate : N -> option JsDate).

#[local] Abbreviation new_Date := (new_Date DateParse ObjectToDate).
#[local] Abbreviation percentage_seed := (percentage_seed NumberToString ObjectToString).
#[local] Abbreviation evaluateRule :=
  (evaluateRule NumberToString ObjectToString DateParse ObjectToDate).
#[local] Abbreviation rule_matches :=
  (rule_matches NumberToString ObjectToString DateParse ObjectToDate).
#[local] Abbreviation rule_stops :=
  (rule_stops NumberToString ObjectToString DateParse ObjectToDate).
#[local] Abbreviation first_stop :=
  (first_stop NumberToString ObjectToString DateParse ObjectToDate).
#[local] Abbreviation rule_outcome :=
  (rule_outcome NumberToString ObjectToString DateParse ObjectToDate).
#[local] Abbreviation rules_loop :=
  (rules_loop NumberToString ObjectToString DateParse ObjectToDate).
#[local] Abbreviation evaluate :=
  (evaluate NumberToString ObjectToString DateParse ObjectToDate).

Lemma percentage_matches_iff this now p prio context :
  rule_matches this now context (mkRule (PERCENTAGE p) prio) = true
  <-> exists seed, percentage_seed this context = Returned seed
                   /\ (inject_Z (normalizedHash seed) < p)%Q.
Proof.
  unfold rule_matches. rewrite evaluateRule_PERCENTAGE.
  destruct (percentage_seed this context) as [seed|e]; simpl.
  - rewrite Qlt_bool_iff. split; [eauto | now intros (seed' & [= <-] & H)].
  - split; [discriminate | now intros (seed' & [=] & _)].
Qed.

(** X1: the threshold of a PERCENTAGE rule: a context that matches at a value
    matches at every greater value (same flag, hence same bucket); a value of
    100 or more matches every context, unless the conversion of its [userId]
    to a string throws, and a value of 0 or less matches none, the bucket
    lying in [0,100) and the comparison being strict. *)
Theorem percentage_thresholds (this : Flag) (now : Z) (prio : Z)
    (context : gmap jsstring JsVal) :
  (forall (p q : Q) (prio' : Z),
     (p <= q)%Q ->
     rule_matches this now context (mkRule (PERCENTAGE p) prio) = true ->
     rule_matches this now context (mkRule (PERCENTAGE q) prio') = true)
  /\ (forall p : Q,
        (100 <= p)%Q ->
        rule_matches this now context (mkRule (PERCENTAGE p) prio) = true
        \/ percentage_seed this context = Thrown TypeError)
  /\ (forall p : Q,
        (p <= 0)%Q ->
        rule_matches this now context (mkRule (PERCENTAGE p) prio) = false).
Proof.
  split; [|split].
  - intros p q prio' Hpq Hp.
    apply percentage_matches_iff. apply percentage_matches_iff in Hp.
    destruct Hp as (seed & Hseed & Hp). exists seed. split; [exact Hseed|].
    eapply Qlt_le_trans; [exact Hp | exact Hpq].
  - intros p Hp. destruct (percentage_seed this context) as [seed|e] eqn:Hseed.
    + left. apply percentage_matches_iff. exists seed. split; [exact Hseed|].
      eapply Qlt_le_trans; [|exact Hp].
      change (inject_Z (normalizedHash seed) < inject_Z 100)%Q.
      rewrite <- Zlt_Qlt. apply normalizedHash_bounds.
    + right. f_equal. exact (percentage_seed_Thrown _ _ _ _ _ Hseed).
  - intros p Hp.
    destruct (rule_matches this now context (mkRule (PERCENTAGE p) prio)) eqn:E;
      [|reflexivity].
    apply percentage_matches_iff in E as (seed & _ & E). exfalso.
    apply (Qlt_not_le _ _ E). eapply Qle_trans; [exact Hp|].
    change (inject_Z 0 <= inject_Z (normalizedHash seed))%Q.
    rewrite <- Zle_Qle. apply normalizedHash_bounds.
Qed.

Lemma segment_loop_agreement c1 c2 entries :
  (forall k, k ∈ entries.*1 -> context_get c1 k = context_get c2 k) ->
  segment_loop c1 entries = segment_loop c2 entries.
Proof.
  induction entries as [|[k v] entries IH]; intros H; simpl; [reflexivity|].
  rewrite (H k) by apply list_elem_of_here.
  rewrite IH; [reflexivity|].
  intros k' Hk'. apply H. simpl. now apply list_elem_of_further.
Qed.

Lemma evaluateRule_agreement this now rule c1 c2 :
  (forall k, k ∈ rule_reads rule -> context_get c1 k = context_get c2 k) ->
  evaluateRule this now rule c1 = evaluateRule this now rule c2.
Proof.
  unfold rule_reads, evaluateRule. destruct (rule_body rule); intros H;
    try reflexivity.
  - unfold percentage_seed. rewrite (H (str "userId")); [reflexivity|].
    apply list_elem_of_here.
  - now rewrite (segment_loop_agreement c1 c2).
Qed.

Lemma rules_loop_agreement this now l c1 c2 :
  (forall r k, r ∈ l -> k ∈ rule_reads r -> context_get c1 k = context_get c2 k) ->
  rules_loop this now c1 l = rules_loop this now c2 l.
Proof.
  induction l as [|r l IH]; intros H; simpl; [reflexivity|].
  rewrite (evaluateRule_agreement this now r c1 c2)
    by (intros k; apply H, list_elem_of_here).
  rewrite IH; [reflexivity|].
  intros r' k Hr'. apply H. now apply list_elem_of_further.
Qed.

(** X2: [evaluate] looks at the context only through [userId] (for
    PERCENTAGE rules) and the attributes named by the USER_SEGMENT rules of
    the environment: two contexts that agree on those give the same
    result. *)
Theorem evaluate_context_agreement (this : Flag) (environment : jsstring)
    (c1 c2 : gmap jsstring JsVal) (now : Z) :
  (forall envSettings r k,
     environments this !! environment = Some envSettings ->
     r ∈ rules envSettings -> k ∈ rule_reads r ->
     context_get c1 k = context_get c2 k) ->
  evaluate this environment c1 now = evaluate this environment c2 now.
Proof.
  intros H. unfold evaluate.
  destruct (environments this !! environment) as [envSettings|] eqn:E;
    [|reflexivity].
  destruct (enabled envSettings); simpl; [|reflexivity].
  destruct (rules envSettings) as [|r0 l] eqn:Er; [reflexivity|].
  rewrite (rules_loop_agreement this now _ c1 c2); [reflexivity|].
  intros r k Hr. apply (H envSettings r k eq_refl).
  rewrite Er. now rewrite <- (sort_perm by_priority (r0 :: l)).
Qed.

(** What a SCHEDULED rule that matches has found. *)
Lemma scheduled_matches_iff this now prio context startDate endDate :
  rule_matches this now context (mkRule (SCHEDULED startDate endDate) prio) = true
  <-> exists s,
        new_Date startDate = Returned (DateMs s) /\ s <= now
        /\ (truthy endDate = false
            \/ exists e, new_Date endDate = Returned (DateMs e) /\ now <= e).
Proof.
  unfold rule_matches, evaluateRule. simpl.
  destruct (new_Date startDate) as [[|s]|err]; simpl.
  - split; [|now intros (s & [=] & _)].
    destruct (truthy endDate); simpl; [|discriminate].
    now destruct (new_Date endDate).
  - destruct (truthy endDate); simpl.
    + destruct (new_Date endDate) as [[|e]|err]; simpl.
      * rewrite andb_false_r. split; [discriminate|].
        now intros (s' & _ & _ & [[=] | (e & [=] & _)]).
      * rewrite andb_true_iff, !Z.leb_le. split.
        -- intros [H1 H2]. exists s. repeat split; [exact H1|]. right. eauto.
        -- intros (s' & [= <-] & H1 & [[=] | (e' & [= <-] & H2)]). now split.
      * split; [discriminate|].
        now intros (s' & _ & _ & [[=] | (e & [=] & _)]).
    + rewrite andb_true_r, Z.leb_le. split.
      * intros H1. exists s. repeat split; [exact H1 | now left].
      * now intros (s' & [= <-] & H1 & _).
  - split; [discriminate | now intros (s & [=] & _)].
Qed.

(** X3: the times at which a SCHEDULED rule matches form an interval: if it
    matches at two times it matches at every time between them.  A rule
    whose end date is falsy (the rule has none, or it is null, [false], 0 or
    the empty string) has no end: once it matches, it matches at every
    later time.  A rule whose end date is truthy and precedes its start date
    never matches. *)
Theorem scheduled_window_shape (this : Flag) (prio : Z)
    (context : gmap jsstring JsVal) :
  (forall (startDate endDate : JsVal) (t1 t2 t3 : Z),
     t1 <= t2 <= t3 ->
     rule_matches this t1 context (mkRule (SCHEDULED startDate endDate) prio) = true ->
     rule_matches this t3 context (mkRule (SCHEDULED startDate endDate) prio) = true ->
     rule_matches this t2 context (mkRule (SCHEDULED startDate endDate) prio) = true)
  /\ (forall (startDate endDate : JsVal) (t1 t2 : Z),
        truthy endDate = false ->
        t1 <= t2 ->
        rule_matches this t1 context (mkRule (SCHEDULED startDate endDate) prio) = true ->
        rule_matches this t2 context (mkRule (SCHEDULED startDate endDate) prio) = true)
  /\ (forall (startDate endDate : JsVal) (s e now : Z),
        new_Date startDate = Returned (DateMs s) ->
        truthy endDate = true ->
        new_Date endDate = Returned (DateMs e) ->
        e < s ->
        rule_matches this now context (mkRule (SCHEDULED startDate endDate) prio)
        = false).
Proof.
  split; [|split].
  - intros startDate endDate t1 t2 t3 Ht H1 H3.
    apply scheduled_matches_iff in H1 as (s & Hs & H1 & _).
    apply scheduled_matches_iff in H3 as (s' & _ & _ & H3).
    apply scheduled_matches_iff. exists s. repeat split; [exact Hs | lia |].
    destruct H3 as [H3 | (e & He & H3)]; [now left|].
    right. exists e. split; [exact He | lia].
  - intros startDate endDate t1 t2 Hend Ht H1.
    apply scheduled_matches_iff in H1 as (s & Hs & H1 & _).
    apply scheduled_matches_iff. exists s. repeat split; [exact Hs | lia |].
    now left.
  - intros startDate endDate s e now Hs Ht He Hlt.
    destruct (rule_matches this now context _) eqn:E; [|reflexivity].
    apply scheduled_matches_iff in E as (s' & Hs' & H1 & [H2 | (e' & He' & H2)]).
    + congruence.
    + rewrite Hs in Hs'. rewrite He in He'.
      injection Hs' as <-. injection He' as <-. lia.
Qed.

Lemma result_value_cases this now context r result :
  evaluateRule this now r context = Returned result ->
  matches result = true ->
  result_value result = VBool true \/ rule_body r = DEFAULT (result_value result).
Proof.
  unfold evaluateRule.
  destruct (rule_body r) as [p|segment|startDate endDate|v|]; simpl.
  - destruct (percentage_seed this context); simpl; [|discriminate].
    intros [= <-]. now left.
  - intros [= <-]. now left.
  - destruct (new_Date startDate); simpl; [|discriminate].
    destruct (truthy endDate); simpl.
    + destruct (new_Date endDate); simpl; [|discriminate]. intros [= <-]. now left.
    + intros [= <-]. now left.
  - intros [= <-]. now right.
  - now intros [= <-].
Qed.

(** X4: what [evaluate] can return for an environment the flag has: the
    default value, the boolean [true], or the value of one of the DEFAULT
    rules of the environment; nothing else. *)
Theorem evaluate_value_range (this : Flag) (environment : jsstring)
    (context : gmap jsstring JsVal) (now : Z) (envSettings : EnvironmentSettings)
    (v : JsVal) :
  environments this !! environment = Some envSettings ->
  evaluate this environment context now = Returned v ->
  v = resolveDefault (type this) envSettings
  \/ v = VBool true
  \/ exists r, r ∈ rules envSettings /\ rule_body r = DEFAULT v.
Proof.
  intros Henv. rewrite (evaluate_present _ _ _ _ _ _ _ _ _ Henv).
  destruct (enabled envSettings); [|intros [= <-]; now left].
  destruct (first_stop this now context (sort by_priority (rules envSettings)))
    as [r|] eqn:E; [|intros [= <-]; now left].
  apply first_stop_Some in E as [Hin Hm].
  rewrite (sort_perm by_priority) in Hin.
  unfold rule_outcome. unfold rule_stops in Hm.
  destruct (evaluateRule this now r context) as [result|e] eqn:Hres;
    simpl; [|discriminate].
  intros [= <-].
  destruct (result_value_cases _ _ _ _ _ Hres Hm) as [-> | Hd]; [now right; left|].
  right; right. now exists r.
Qed.

Lemma first_stop_same_key this that now context l :
  key this = key that ->
  first_stop this now context l = first_stop that now context l.
Proof.
  intros Hk. unfold first_stop, rule_stops.
  induction l as [|r l IH]; simpl; [reflexivity|].
  now rewrite (evaluateRule_same_key _ _ _ _ this that), IH.
Qed.

Lemma rule_outcome_same_key this that now context r :
  key this = key that ->
  rule_outcome this now context r = rule_outcome that now context r.
Proof.
  intros Hk. unfold rule_outcome.
  now rewrite (evaluateRule_same_key _ _ _ _ this that).
Qed.

(** The first stop of the sorted rules is the first rule of the sorted
    rules at which the loop stops. *)
Lemma first_stop_sort_filter this now context l :
  first_stop this now context (sort by_priority l)
  = head (sort by_priority
            (filter (fun r => rule_stops this now context r = true) l)).
Proof.
  unfold first_stop. rewrite find_head_filter. now rewrite sort_filter_commute.
Qed.

(** X5: the rules that do not match a context have no part in its
    evaluation: replacing the rule list by one with the same rules at which
    the loop stops (the rules that match, and those whose evaluation throws),
    in the same order, leaves the result unchanged. *)
Theorem evaluate_matching_rules_only (this : Flag) (environment : jsstring)
    (context : gmap jsstring JsVal) (now : Z) (envSettings : EnvironmentSettings)
    (rules' : list Rule) :
  environments this !! environment = Some envSettings ->
  filter (fun r => rule_stops this now context r = true) rules'
  = filter (fun r => rule_stops this now context r = true) (rules envSettings) ->
  evaluate (environments_set this environment (set_rules envSettings rules'))
    environment context now
  = evaluate this environment context now.
Proof.
  intros Henv Hfilter.
  rewrite (evaluate_present _ _ _ _ this _ _ _ _ Henv).
  rewrite (evaluate_present _ _ _ _ _ environment context now
             (set_rules envSettings rules')) by apply lookup_insert_eq.
  simpl. destruct (enabled envSettings); [|reflexivity].
  rewrite (first_stop_same_key _ this) by reflexivity.
  rewrite !first_stop_sort_filter, Hfilter.
  destruct (head _) as [r|]; [|reflexivity].
  now apply rule_outcome_same_key.
Qed.

Lemma first_stop_sorted_winner this now context l r :
  first_stop this now context (sort by_priority l) = Some r ->
  rule_stops this now context r = true
  /\ (forall r', r' ∈ l -> rule_stops this now context r' = true ->
                 priority r' <= priority r)
  /\ head (filter (fun r' => rule_stops this now context r' = true
                              /\ priority r' = priority r) l) = Some r.
Proof.
  intros H. destruct (find_split _ _ _ H) as (l1 & l2 & Hl & Hl1 & Hr).
  pose proof (sort_sorted l) as Hs. rewrite Hl in Hs.
  apply StronglySorted_app in Hs as (Hcross & _ & Hs2).
  apply StronglySorted_inv in Hs2 as [_ Hafter].
  split; [exact Hr|]. split.
  - intros r' Hin Hm. rewrite <- (sort_perm by_priority l), Hl in Hin.
    apply elem_of_app in Hin as [Hin | Hin].
    + rewrite Forall_forall in Hl1. rewrite (Hl1 r' Hin) in Hm. discriminate.
    + apply elem_of_cons in Hin as [-> | Hin]; [lia|].
      rewrite Forall_forall in Hafter. exact (Hafter r' Hin).
  - rewrite <- (list_filter_filter (fun r' => rule_stops this now context r' = true)
                  (fun r' => priority r' = priority r)).
    rewrite <- (sort_stable (priority r) l), Hl.
    rewrite filter_app, (filter_cons_True _ r) by reflexivity.
    rewrite filter_app, (filter_cons_True _ r) by exact Hr.
    assert (Hnil : filter (fun r' => rule_stops this now context r' = true)
                     (filter (fun r' => priority r' = priority r) l1) = []).
    { clear -Hl1. induction Hl1 as [|y l1 Hy _ IH]; [reflexivity|].
      rewrite filter_cons. destruct (decide (priority y = priority r)); [|exact IH].
      rewrite filter_cons_False by congruence. exact IH. }
    now rewrite Hnil.
Qed.

Lemma first_stop_sorted_of_winner this now context l r :
  rule_stops this now context r = true ->
  (forall r', r' ∈ l -> rule_stops this now context r' = true ->
              priority r' <= priority r) ->
  head (filter (fun r' => rule_stops this now context r' = true
                          /\ priority r' = priority r) l) = Some r ->
  first_stop this now context (sort by_priority l) = Some r.
Proof.
  intros Hm Hmax Hhead.
  assert (Hin : r ∈ l).
  { apply head_Some_elem_of in Hhead. now apply list_elem_of_filter in Hhead as [_ ?]. }
  destruct (first_stop this now context (sort by_priority l)) as [r0|] eqn:E.
  - destruct (first_stop_sorted_winner _ _ _ _ _ E) as (Hm0 & Hmax0 & Hhead0).
    assert (Hin0 : r0 ∈ l).
    { apply head_Some_elem_of in Hhead0.
      now apply list_elem_of_filter in Hhead0 as [_ ?]. }
    assert (Hp : priority r0 = priority r).
    { pose proof (Hmax r0 Hin0 Hm0). pose proof (Hmax0 r Hin Hm). lia. }
    rewrite Hp, Hhead in Hhead0. now injection Hhead0 as ->.
  - pose proof (proj1 (first_stop_None NumberToString ObjectToString DateParse
                         ObjectToDate _ _ _ _) E) as Hnone.
    rewrite (Hnone r) in Hm; [discriminate|].
    now rewrite (sort_perm by_priority).
Qed.

(** X6: the rule that decides is, of the rules at which the loop stops (the
    rules that match, and those whose evaluation throws), one of greatest
    priority, and among those of that priority the first of the list: for an
    enabled environment, [evaluate] comes to the outcome of such a rule, so
    that it returns the value of such a rule that matches. *)
Theorem evaluate_winner (this : Flag) (environment : jsstring)
    (context : gmap jsstring JsVal) (now : Z) (envSettings : EnvironmentSettings)
    (r : Rule) :
  environments this !! environment = Some envSettings ->
  enabled envSettings = true ->
  rule_stops this now context r = true ->
  (forall r', r' ∈ rules envSettings -> rule_stops this now context r' = true ->
              priority r' <= priority r) ->
  head (filter (fun r' => rule_stops this now context r' = true
                          /\ priority r' = priority r) (rules envSettings))
  = Some r ->
  evaluate this environment context now = rule_outcome this now context r
  /\ (forall result,
        evaluateRule this now r context = Returned result ->
        matches result = true
        /\ evaluate this environment context now
           = Returned (result_value result)).
Proof.
  intros Henv Hen Hm Hmax Hhead.
  assert (Hev : evaluate this environment context now
                = rule_outcome this now context r).
  { rewrite (evaluate_present _ _ _ _ _ _ _ _ _ Henv), Hen.
    now rewrite (first_stop_sorted_of_winner _ _ _ _ _ Hm Hmax Hhead). }
  split; [exact Hev|].
  intros result Hres. unfold rule_stops in Hm. rewrite Hres in Hm.
  split; [exact Hm|]. rewrite Hev. now apply rule_outcome_Returned.
Qed.


Lemma filter_priority_short l p :
  NoDup (priority <$> l) ->
  (length (filter (fun r => priority r = p) l) <= 1)%nat.
Proof.
  induction l as [|x l IH]; intros Hnd; simpl; [lia|].
  rewrite fmap_cons in Hnd. apply NoDup_cons in Hnd as [Hx Hnd].
  rewrite filter_cons. destruct (decide (priority x = p)) as [Hxp|]; [|now apply IH].
  assert (Hnil : filter (fun r => priority r = p) l = []).
  { destruct (filter (fun r => priority r = p) l) as [|y l'] eqn:E; [reflexivity|].
    exfalso. apply Hx.
    assert (Hy : y ∈ filter (fun r => priority r = p) l)
      by (rewrite E; apply list_elem_of_here).
    apply list_elem_of_filter in Hy as [Hyp Hy].
    rewrite Hxp, <- Hyp. now apply list_elem_of_fmap_2. }
  rewrite Hnil. simpl. lia.
Qed.

Lemma sort_perm_distinct l1 l2 :
  l1 ≡ₚ l2 -> NoDup (priority <$> l2) ->
  sort by_priority l1 = sort by_priority l2.
Proof.
  intros Hperm Hnd. apply sorted_stable_unique; try apply sort_sorted.
  intros p. rewrite !sort_stable.
  pose proof (filter_priority_short l2 p Hnd) as Hlen.
  assert (Hp : filter (fun r => priority r = p) l1
               ≡ₚ filter (fun r => priority r = p) l2) by now rewrite Hperm.
  destruct (filter (fun r => priority r = p) l2) as [|y [|z l']].
  - now apply Permutation_nil_r in Hp.
  - now apply Permutation_singleton_r in Hp.
  - simpl in Hlen. lia.
Qed.

(** X7: when the priorities of the rules are pairwise distinct, the order
    of the rule list does not matter: every rearrangement of the list
    evaluates alike. *)
Theorem evaluate_rule_order_irrelevant (this : Flag) (environment : jsstring)
    (context : gmap jsstring JsVal) (now : Z) (envSettings : EnvironmentSettings)
    (rules' : list Rule) :
  environments this !! environment = Some envSettings ->
  rules' ≡ₚ rules envSettings ->
  NoDup (priority <$> rules envSettings) ->
  evaluate (environments_set this environment (set_rules envSettings rules'))
    environment context now
  = evaluate this environment context now.
Proof.
  intros Henv Hperm Hnd.
  rewrite (evaluate_present _ _ _ _ this _ _ _ _ Henv).
  rewrite (evaluate_present _ _ _ _ _ environment context now
             (set_rules envSettings rules')) by apply lookup_insert_eq.
  simpl. destruct (enabled envSettings); [|reflexivity].
  rewrite (first_stop_same_key _ this) by reflexivity.
  rewrite (sort_perm_distinct _ _ Hperm Hnd).
  destruct (first_stop _ _ _ _) as [r|]; [|reflexivity].
  now apply rule_outcome_same_key.
Qed.

(** X8: with a DEFAULT rule among the rules of an enabled environment, the
    default value resolver is never reached: [evaluate] comes to the outcome
    of a rule at which the loop stops whose priority is at least that of the
    DEFAULT rule, so that, unless the evaluation of that rule throws, it
    returns the value of a matching rule. *)
Theorem default_rule_catch_all (this : Flag) (environment : jsstring)
    (context : gmap jsstring JsVal) (now : Z) (envSettings : EnvironmentSettings)
    (d : Rule) (v : JsVal) :
  environments this !! environment = Some envSettings ->
  enabled envSettings = true ->
  d ∈ rules envSettings ->
  rule_body d = DEFAULT v ->
  exists r,
    r ∈ rules envSettings
    /\ rule_stops this now context r = true
    /\ priority d <= priority r
    /\ evaluate this environment context now = rule_outcome this now context r
    /\ (forall result,
          evaluateRule this now r context = Returned result ->
          rule_matches this now context r = true
          /\ evaluate this environment context now
             = Returned (result_value result)).
Proof.
  intros Henv Hen Hd Hbody.
  assert (Hdm : rule_stops this now context d = true).
  { unfold rule_stops, evaluateRule. now rewrite Hbody. }
  rewrite (evaluate_present _ _ _ _ _ _ _ _ _ Henv), Hen.
  destruct (first_stop this now context (sort by_priority (rules envSettings)))
    as [r|] eqn:E.
  - destruct (first_stop_sorted_winner _ _ _ _ _ E) as (Hm & Hmax & Hhead).
    exists r. split.
    { apply head_Some_elem_of in Hhead.
      now apply list_elem_of_filter in Hhead as [_ ?]. }
    split; [exact Hm|]. split; [now apply Hmax|]. split; [reflexivity|].
    intros result Hres. unfold rule_matches, rule_stops in *.
    rewrite Hres in *. split; [exact Hm | now apply rule_outcome_Returned].
  - pose proof (proj1 (first_stop_None NumberToString ObjectToString DateParse
                         ObjectToDate _ _ _ _) E) as Hnone.
    rewrite (Hnone d) in Hdm; [discriminate|].
    now rewrite (sort_perm by_priority).
Qed.

End MoreEngineProperties.

Lemma find_key_elem k (l : list Variation) v :
  find (fun v => bool_decide (variation_key v = k)) l = Some v ->
  v ∈ l /\ variation_key v = k.
Proof.
  intros H. apply find_some in H as [Hin Hk].
  split; [now apply list_elem_of_In | exact (bool_decide_eq_true_1 _ Hk)].
Qed.

Lemma find_key_exists k (l : list Variation) :
  existsb (fun v => bool_decide (variation_key v = k)) l = true ->
  exists v, find (fun v => bool_decide (variation_key v = k)) l = Some v.
Proof.
  induction l as [|x l IH]; simpl; [discriminate|].
  destruct (bool_decide (variation_key x = k)); [eauto | exact IH].
Qed.

(** X9: for a flag that is not BOOLEAN, settings with variations whose
    [defaultVariation] passes the schema's validator resolve to the value of
    a variation of the list, the one named by [defaultVariation] when it is
    set. *)
Theorem validated_default_is_a_variation (flagType : FlagType)
    (envSettings : EnvironmentSettings) :
  flagType <> BOOLEAN ->
  variations envSettings <> [] ->
  defaultVariation_validator envSettings (defaultVariation envSettings) = true ->
  exists variation,
    variation ∈ variations envSettings
    /\ resolveDefault flagType envSettings = variation_value variation
    /\ (forall k, defaultVariation envSettings = Some k -> k <> [] ->
          variation_key variation = k).
Proof.
  intros Hty Hvars Hvalid.
  destruct (variations envSettings) as [|first rest] eqn:Ev; [congruence|].
  assert (E : resolveDefault flagType envSettings =
              match find (fun v => bool_decide
                            (variation_key v =
                             match defaultVariation envSettings with
                             | Some (c :: k) => c :: k
                             | _ => variation_key first
                             end)) (first :: rest) with
              | Some variation => variation_value variation
              | None => VNull
              end).
  { destruct flagType; try congruence; simpl; now rewrite Ev. }
  rewrite E. unfold defaultVariation_validator in Hvalid. rewrite Ev in Hvalid.
  destruct (defaultVariation envSettings) as [[|c k]|].
  - exists first. simpl. rewrite bool_decide_eq_true_2 by reflexivity.
    split; [apply list_elem_of_here | split; [reflexivity | congruence]].
  - destruct (find_key_exists _ _ Hvalid) as [v Hv]. rewrite Hv.
    apply find_key_elem in Hv as [Hin Hk].
    exists v. split; [exact Hin | split; [reflexivity|]]. now intros k' [= <-].
  - exists first. simpl. rewrite bool_decide_eq_true_2 by reflexivity.
    split; [apply list_elem_of_here | split; [reflexivity | congruence]].
Qed.

Section ServiceProperties.

Context (NumberToString : Q -> jsstring) (ObjectToString : N -> option jsstring).
Context (DateParse : jsstring -> JsDate) (ObjectToDate : N -> option JsDate).

#[local] Abbreviation evaluateRule :=
  (evaluateRule NumberToString ObjectToString DateParse ObjectToDate).
#[local] Abbreviation rule_matches :=
  (rule_matches NumberToString ObjectToString DateParse ObjectToDate).
#[local] Abbreviation evaluate :=
  (evaluate NumberToString ObjectToString DateParse ObjectToDate).
#[local] Abbreviation evaluateAllFlags_loop :=
  (evaluateAllFlags_loop NumberToString ObjectToString DateParse ObjectToDate).
#[local] Abbreviation evaluateAllFlags :=
  (evaluateAllFlags NumberToString ObjectToString DateParse ObjectToDate).
#[local] Abbreviation evaluateFlag :=
  (evaluateFlag NumberToString ObjectToString DateParse ObjectToDate).
#[local] Abbreviation getClientFlags :=
  (getClientFlags NumberToString ObjectToString DateParse ObjectToDate).

Lemma evaluate_absent this environment context now :
  environments this !! environment = None ->
  evaluate this environment context now
  = Thrown (EnvironmentNotFound environment (key this)).
Proof. intros H. unfold evaluate. now rewrite H. Qed.

(** A flag that evaluates has settings for the environment. *)
Lemma evaluate_Returned_settings this environment context now v :
  evaluate this environment context now = Returned v ->
  is_Some (environments this !! environment).
Proof.
  destruct (environments this !! environment) as [es|] eqn:E; [eauto|].
  now rewrite (evaluate_absent _ _ _ _ E).
Qed.

(** A flag that has settings for the environment evaluates, when the
    evaluation of none of their rules throws. *)
Lemma evaluate_settings_Returned this environment context now envSettings :
  environments this !! environment = Some envSettings ->
  (forall r e, r ∈ rules envSettings ->
     evaluateRule this now r context <> Thrown e) ->
  exists v, evaluate this environment context now = Returned v.
Proof.
  intros Henv Hno.
  destruct (evaluate_outcomes NumberToString ObjectToString DateParse ObjectToDate
              this environment context now) as (_ & _ & H).
  destruct (H envSettings Henv) as (_ & _ & Hret). now apply Hret.
Qed.

(** With settings for the environment, [evaluate] throws nothing but a
    TypeError. *)
Lemma evaluate_settings_Thrown this environment context now e :
  is_Some (environments this !! environment) ->
  evaluate this environment context now = Thrown e ->
  e = TypeError.
Proof.
  intros [es Hes] He.
  destruct (evaluate_outcomes NumberToString ObjectToString DateParse ObjectToDate
              this environment context now) as (Habs & Hthrown & _).
  destruct (Hthrown e He) as [-> | ->]; [|reflexivity].
  apply Habs in He. congruence.
Qed.

(** X10: the mapping [evaluateAllFlags] returns has an entry exactly for the
    keys, other than [__proto__], of the flags that evaluate.  Such a flag
    has settings for the environment; and a flag that has settings for the
    environment, and a key other than [__proto__], has an entry when the
    evaluation of none of its rules throws. *)
Theorem evaluateAllFlags_domain (flags : list Flag) (environment : jsstring)
    (context : gmap jsstring JsVal) (now : Z) :
  exists results : gmap jsstring JsVal,
    evaluateAllFlags flags environment context now = Returned results
    /\ (forall k,
          is_Some (results !! k)
          <-> k <> str "__proto__"
              /\ exists flag v,
                   flag ∈ flags /\ key flag = k
                   /\ evaluate flag environment context now = Returned v)
    /\ (forall k,
          is_Some (results !! k) ->
          exists flag, flag ∈ flags /\ key flag = k
                       /\ is_Some (environments flag !! environment))
    /\ (forall flag envSettings,
          flag ∈ flags ->
          key flag <> str "__proto__" ->
          environments flag !! environment = Some envSettings ->
          (forall r e, r ∈ rules envSettings ->
             evaluateRule flag now r context <> Thrown e) ->
          is_Some (results !! key flag)).
Proof.
  destruct (evaluateAllFlags_loop_returns NumberToString ObjectToString
              DateParse ObjectToDate flags environment context now ∅)
    as [results Hres].
  exists results. split; [exact Hres|].
  destruct (evaluateAllFlags_loop_lookup _ _ _ _ _ _ _ _ _ _ Hres)
    as (_ & _ & _ & H3 & H4 & _).
  split; [|split].
  - intros k. split.
    + intros [v Hv]. destruct (H4 k v Hv) as [He | (flag & Hin & Hk & Hp & Hev)].
      * now rewrite lookup_empty in He.
      * split; [exact Hp|]. now exists flag, v.
    + intros (Hp & flag & v & Hin & <- & Hev). eapply H3; eauto.
  - intros k [v Hv]. destruct (H4 k v Hv) as [He | (flag & Hin & Hk & _ & Hev)].
    + now rewrite lookup_empty in He.
    + exists flag. split; [exact Hin | split; [exact Hk|]].
      exact (evaluate_Returned_settings _ _ _ _ _ Hev).
  - intros flag es Hin Hp Hes Hno.
    destruct (evaluate_settings_Returned _ _ context now _ Hes Hno) as [v Hv].
    eapply H3; eauto.
Qed.

Lemma evaluateAllFlags_loop_app l1 l2 environment context now acc acc1 :
  evaluateAllFlags_loop l1 environment context now acc = Returned acc1 ->
  evaluateAllFlags_loop (l1 ++ l2) environment context now acc
  = evaluateAllFlags_loop l2 environment context now acc1.
Proof.
  revert acc. induction l1 as [|f l1 IH]; intros acc H.
  - simpl in H. now injection H as ->.
  - rewrite <- app_comm_cons, evaluateAllFlags_loop_cons.
    rewrite evaluateAllFlags_loop_cons in H. now apply IH.
Qed.

Lemma evaluateAllFlags_loop_union flags environment context now :
  forall (acc R : gmap jsstring JsVal),
  evaluateAllFlags_loop flags environment context now ∅ = Returned R ->
  evaluateAllFlags_loop flags environment context now acc = Returned (R ∪ acc).
Proof.
  induction flags as [|f rest IH]; intros acc R H.
  - simpl in H. injection H as <-. simpl. now rewrite (left_id_L ∅ (∪)).
  - rewrite evaluateAllFlags_loop_cons in *.
    destruct (evaluateAllFlags_loop_returns NumberToString ObjectToString
                DateParse ObjectToDate rest environment context now ∅)
      as [R0 HR0].
    destruct (evaluate f environment context now) as [v|e].
    + unfold object_set in *. case_bool_decide.
      * rewrite HR0 in H. injection H as <-. now apply IH.
      * rewrite (IH _ _ HR0) in H. injection H as <-.
        rewrite (IH _ _ HR0). f_equal.
        rewrite insert_empty, <- (assoc_L (∪)).
        now rewrite <- insert_union_singleton_l.
    + rewrite HR0 in H. injection H as <-. now apply IH.
Qed.

(** X11: evaluating a list of flags in two parts and merging gives the
    result for the whole list, the entries of the later part taking
    precedence. *)
Theorem evaluateAllFlags_app (l1 l2 : list Flag) (environment : jsstring)
    (context : gmap jsstring JsVal) (now : Z) :
  exists R1 R2 : gmap jsstring JsVal,
    evaluateAllFlags l1 environment context now = Returned R1
    /\ evaluateAllFlags l2 environment context now = Returned R2
    /\ evaluateAllFlags (l1 ++ l2) environment context now = Returned (R2 ∪ R1).
Proof.
  destruct (evaluateAllFlags_loop_returns NumberToString ObjectToString
              DateParse ObjectToDate l1 environment context now ∅) as [R1 H1].
  destruct (evaluateAllFlags_loop_returns NumberToString ObjectToString
              DateParse ObjectToDate l2 environment context now ∅) as [R2 H2].
  exists R1, R2. split; [exact H1 | split; [exact H2|]].
  unfold evaluateAllFlags.
  rewrite (evaluateAllFlags_loop_app _ _ _ _ _ _ _ H1).
  now apply evaluateAllFlags_loop_union.
Qed.

(** X12: with pairwise distinct flag keys, the order in which the flags are
    found does not affect the mapping [evaluateAllFlags] returns. *)
Theorem evaluateAllFlags_order_irrelevant (flags flags' : list Flag)
    (environment : jsstring) (context : gmap jsstring JsVal) (now : Z) :
  NoDup (key <$> flags) ->
  flags' ≡ₚ flags ->
  evaluateAllFlags flags' environment context now
  = evaluateAllFlags flags environment context now.
Proof.
  intros Hnd Hperm.
  assert (Hnd' : NoDup (key <$> flags')) by now rewrite Hperm.
  destruct (evaluateAllFlags_loop_returns NumberToString ObjectToString
              DateParse ObjectToDate flags environment context now ∅) as [R H].
  destruct (evaluateAllFlags_loop_returns NumberToString ObjectToString
              DateParse ObjectToDate flags' environment context now ∅) as [R' H'].
  unfold evaluateAllFlags. rewrite H, H'. f_equal.
  destruct (evaluateAllFlags_loop_lookup _ _ _ _ _ _ _ _ _ _ H)
    as (H1 & _ & _ & _ & _ & H5).
  destruct (evaluateAllFlags_loop_lookup _ _ _ _ _ _ _ _ _ _ H')
    as (H1' & _ & _ & _ & _ & H5').
  apply map_eq. intros k.
  destruct (decide (k ∈ key <$> flags)) as [Hk | Hk].
  - apply list_elem_of_fmap in Hk as (f & -> & Hf).
    rewrite (H5 Hnd f Hf). apply H5'; [exact Hnd' | now rewrite Hperm].
  - rewrite (H1 k Hk). apply H1'. now rewrite Hperm.
Qed.

Lemma findOne_Some flags flagKey flag :
  findOne flags flagKey = Some flag -> flag ∈ flags /\ key flag = flagKey.
Proof.
  intros H. apply find_some in H as [Hin Hk].
  split; [now apply list_elem_of_In | exact (bool_decide_eq_true_1 _ Hk)].
Qed.

Lemma findOne_None flags flagKey :
  findOne flags flagKey = None <-> forall flag, flag ∈ flags -> key flag <> flagKey.
Proof.
  unfold findOne. split.
  - intros H flag Hin Hk. apply list_elem_of_In in Hin.
    pose proof (find_none _ _ H flag Hin) as Hf. simpl in Hf.
    now rewrite bool_decide_eq_true_2 in Hf.
  - intros H. induction flags as [|f l IH]; simpl; [reflexivity|].
    rewrite bool_decide_eq_false_2 by (apply H, list_elem_of_here).
    apply IH. intros flag Hin. apply H. now apply list_elem_of_further.
Qed.

Lemma NoDup_key_inj (flags : list Flag) f g :
  NoDup (key <$> flags) -> f ∈ flags -> g ∈ flags -> key f = key g -> f = g.
Proof.
  induction flags as [|x l IH]; intros Hnd Hf Hg Hk.
  - now apply elem_of_nil in Hf.
  - rewrite fmap_cons in Hnd. apply NoDup_cons in Hnd as [Hx Hnd].
    apply elem_of_cons in Hf as [-> | Hf]; apply elem_of_cons in Hg as [-> | Hg].
    + reflexivity.
    + exfalso. apply Hx. rewrite Hk. now apply list_elem_of_fmap_2.
    + exfalso. apply Hx. rewrite <- Hk. now apply list_elem_of_fmap_2.
    + now apply IH.
Qed.

(** X13: [evaluateFlag] rejects with status 404 exactly when no stored flag
    has the key; for the flag found, it resolves to the requested key with
    the value [evaluate] returns, and rejects with the error [evaluate]
    throws: the environment-not-found error when the flag has no settings for
    the environment, and with settings nothing but the TypeError of a rule;
    with settings none of whose rules throws, it resolves. *)
Theorem evaluateFlag_spec (flags : list Flag) (environment flagKey : jsstring)
    (context : gmap jsstring JsVal) (now : Z) :
  (evaluateFlag flags environment flagKey context now
   = Rejected (HttpError (str "Flag '" ++ flagKey ++ str "' not found") 404)
   <-> forall flag, flag ∈ flags -> key flag <> flagKey)
  /\ (forall flag, findOne flags flagKey = Some flag ->
        (forall v,
           evaluate flag environment context now = Returned v ->
           evaluateFlag flags environment flagKey context now
           = Resolved {| evaluation_key := flagKey; evaluation_value := v |})
        /\ (forall e,
              evaluate flag environment context now = Thrown e ->
              evaluateFlag flags environment flagKey context now
              = Rejected (EvaluateError e))
        /\ (environments flag !! environment = None ->
            evaluateFlag flags environment flagKey context now
            = Rejected (EvaluateError (EnvironmentNotFound environment flagKey)))
        /\ (forall envSettings,
              environments flag !! environment = Some envSettings ->
              (forall error,
                 evaluateFlag flags environment flagKey context now
                 = Rejected error ->
                 error = EvaluateError TypeError)
              /\ ((forall r e, r ∈ rules envSettings ->
                     evaluateRule flag now r context <> Thrown e) ->
                  exists v,
                    evaluate flag environment context now = Returned v
                    /\ evaluateFlag flags environment flagKey context now
                       = Resolved {| evaluation_key := flagKey;
                                     evaluation_value := v |}))).
Proof.
  unfold evaluateFlag. split.
  - rewrite <- findOne_None.
    destruct (findOne flags flagKey) as [flag|]; [|now split].
    split; [|discriminate].
    destruct (evaluate flag environment context now); discriminate.
  - intros flag Hfind. rewrite Hfind.
    apply findOne_Some in Hfind as [_ Hk].
    split; [|split; [|split]].
    + intros v ->. now rewrite Hk.
    + now intros e ->.
    + intros Habs. now rewrite (evaluate_absent _ _ _ _ Habs), Hk.
    + intros es Hes. split.
      * intros error.
        destruct (evaluate flag environment context now) as [v|e] eqn:Hev;
          [discriminate|].
        intros [= <-]. f_equal.
        exact (evaluate_settings_Thrown _ _ _ _ _ (mk_is_Some _ _ Hes) Hev).
      * intros Hno.
        destruct (evaluate_settings_Returned _ _ context now _ Hes Hno) as [v Hv].
        exists v. split; [exact Hv|]. now rewrite Hv, Hk.
Qed.

(** X14: with pairwise distinct flag keys, the two services agree on every
    key other than [__proto__]: the mapping of [evaluateAllFlags] has [v]
    under [k] exactly when [evaluateFlag] for [k] resolves to
    [{ key: k, value: v }].  Under [__proto__] the mapping has nothing,
    whatever [evaluateFlag] resolves to. *)
Theorem evaluateFlag_agrees_with_evaluateAllFlags (flags : list Flag)
    (environment : jsstring) (context : gmap jsstring JsVal) (now : Z) :
  NoDup (key <$> flags) ->
  exists results : gmap jsstring JsVal,
    evaluateAllFlags flags environment context now = Returned results
    /\ results !! str "__proto__" = None
    /\ forall k v,
         k <> str "__proto__" ->
         (results !! k = Some v
          <-> evaluateFlag flags environment k context now
              = Resolved {| evaluation_key := k; evaluation_value := v |}).
Proof.
  intros Hnd.
  destruct (evaluateAllFlags_loop_returns NumberToString ObjectToString
              DateParse ObjectToDate flags environment context now ∅)
    as [results Hres].
  exists results. split; [exact Hres|].
  destruct (evaluateAllFlags_loop_lookup _ _ _ _ _ _ _ _ _ _ Hres)
    as (_ & _ & Hp & _ & H4 & H5).
  split; [now rewrite Hp|].
  intros k v Hproto. unfold evaluateFlag. split.
  - intros Hk. destruct (H4 k v Hk) as [He | (flag & Hin & Hkey & _ & Hev)].
    { now rewrite lookup_empty in He. }
    destruct (findOne flags k) as [flag'|] eqn:Hfind.
    + apply findOne_Some in Hfind as [Hin' Hk'].
      assert (flag' = flag) as -> by (apply (NoDup_key_inj flags); congruence).
      now rewrite Hev, Hkey.
    + exfalso. exact (proj1 (findOne_None _ _) Hfind flag Hin Hkey).
  - destruct (findOne flags k) as [flag|] eqn:Hfind; [|discriminate].
    apply findOne_Some in Hfind as [Hin Hk].
    destruct (evaluate flag environment context now) as [v'|e] eqn:Hev;
      [|discriminate].
    intros [= _ <-]. rewrite <- Hk, (H5 Hnd flag Hin), Hev.
    rewrite bool_decide_eq_false_2 by congruence. reflexivity.
Qed.

(** X15: through [getClientFlags], whose context holds at most [userId] and
    [clientIP], a USER_SEGMENT rule that requires any other attribute never
    matches. *)
Theorem getClientFlags_segment_other_attribute (this : Flag) (now prio : Z)
    (query_userId ip : JsVal) (segmentValue : list (jsstring * JsVal))
    (k : jsstring) (v : JsVal) :
  (k, v) ∈ segmentValue ->
  k <> str "userId" ->
  k <> str "clientIP" ->
  rule_matches this now (getClientFlags_context query_userId ip)
    (mkRule (USER_SEGMENT segmentValue) prio) = false.
Proof.
  intros Hin Hu Hc. unfold rule_matches, evaluateRule. simpl.
  apply (segment_missing_key _ _ k v Hin).
  unfold getClientFlags_context.
  destruct (truthy ip), (truthy query_userId);
    repeat rewrite lookup_insert_ne by congruence; apply lookup_empty.
Qed.

End ServiceProperties.

Section FlagServiceProperties.

Context (NumberToString : Q -> jsstring) (ObjectToString : N -> option jsstring).
Context (DateParse : jsstring -> JsDate) (ObjectToDate : N -> option JsDate).
Context (save : Flag -> bool).

#[local] Abbreviation evaluateRule :=
  (evaluateRule NumberToString ObjectToString DateParse ObjectToDate).
#[local] Abbreviation rule_stops :=
  (rule_stops NumberToString ObjectToString DateParse ObjectToDate).
#[local] Abbreviation first_stop :=
  (first_stop NumberToString ObjectToString DateParse ObjectToDate).
#[local] Abbreviation rule_outcome :=
  (rule_outcome NumberToString ObjectToString DateParse ObjectToDate).
#[local] Abbreviation evaluate :=
  (evaluate NumberToString ObjectToString DateParse ObjectToDate).
#[local] Abbreviation set_and_save := (set_and_save save).
#[local] Abbreviation toggleFlag := (toggleFlag save).
#[local] Abbreviation addFlagRule := (addFlagRule save).
#[local] Abbreviation addVariation := (addVariation save).
#[local] Abbreviation deleteVariation := (deleteVariation save).
#[local] Abbreviation setDefaultVariation := (setDefaultVariation save).

Lemma find_settings_Resolved found environment flag settings :
  find_settings found environment = Resolved (flag, settings) ->
  found = Some flag /\ environments flag !! environment = Some settings.
Proof.
  unfold find_settings. destruct found as [f|]; [|discriminate].
  destruct (environments f !! environment) eqn:E; [|discriminate].
  now intros [= <- <-].
Qed.

Lemma set_and_save_Resolved flag environment settings flag' :
  set_and_save flag environment settings = Resolved flag' ->
  flag' = environments_set flag environment settings.
Proof.
  unfold set_and_save.
  destruct (save _); [now intros [= <-] | discriminate].
Qed.

Lemma evaluate_environments_set_ne flag environment settings environment'
    context now :
  environment' <> environment ->
  evaluate (environments_set flag environment settings) environment' context now
  = evaluate flag environment' context now.
Proof.
  intros Hne. unfold evaluate, getDefaultValue. simpl.
  rewrite lookup_insert_ne by congruence.
  destruct (environments flag !! environment') as [es|]; [|reflexivity].
  destruct (enabled es); simpl; [|reflexivity].
  destruct (rules es); [reflexivity|].
  now rewrite (rules_loop_same_key _ _ _ _ _ flag).
Qed.

Lemma evaluate_environments_set_eq flag environment settings context now :
  evaluate (environments_set flag environment settings) environment context now
  = if enabled settings then
      match first_stop flag now context (sort by_priority (rules settings)) with
      | Some r => rule_outcome flag now context r
      | None => Returned (resolveDefault (type flag) settings)
      end
    else Returned (resolveDefault (type flag) settings).
Proof.
  rewrite (evaluate_present _ _ _ _ _ environment context now settings)
    by apply lookup_insert_eq.
  reflexivity.
Qed.

(** What each function of the flag service resolves to. *)
Lemma toggleFlag_Resolved found environment b flag' :
  toggleFlag found environment b = Resolved flag' ->
  exists flag settings,
    found = Some flag /\ environments flag !! environment = Some settings
    /\ flag' = environments_set flag environment (set_enabled settings b).
Proof.
  unfold toggleFlag.
  destruct (find_settings found environment) as [[flag settings]|] eqn:E;
    [|discriminate].
  apply find_settings_Resolved in E as [-> Hs]. intros H.
  apply set_and_save_Resolved in H. eauto.
Qed.

Lemma addFlagRule_Resolved found environment ruleData flag' :
  addFlagRule found environment ruleData = Resolved flag' ->
  exists flag settings,
    found = Some flag /\ environments flag !! environment = Some settings
    /\ flag' = environments_set flag environment
                 (set_rules settings (rules settings ++ [ruleData])).
Proof.
  unfold addFlagRule.
  destruct (find_settings found environment) as [[flag settings]|] eqn:E;
    [|discriminate].
  apply find_settings_Resolved in E as [-> Hs]. intros H.
  apply set_and_save_Resolved in H. eauto.
Qed.

Lemma addVariation_Resolved found environment variationData flag' :
  addVariation found environment variationData = Resolved flag' ->
  exists flag settings,
    found = Some flag /\ environments flag !! environment = Some settings
    /\ (forall v, v ∈ variations settings ->
                  variation_key v <> variation_key variationData)
    /\ flag' = environments_set flag environment
                 (set_defaultVariation
                    (set_variations settings (variations settings ++ [variationData]))
                    (if (length (variations settings ++ [variationData]) =? 1)%nat
                        && is_falsy_key (defaultVariation settings)
                     then Some (variation_key variationData)
                     else defaultVariation settings)).
Proof.
  unfold addVariation.
  destruct (find_settings found environment) as [[flag settings]|] eqn:E;
    [|discriminate].
  apply find_settings_Resolved in E as [-> Hs].
  destruct (find _ (variations settings)) eqn:Hf; [discriminate|].
  intros H. apply set_and_save_Resolved in H.
  exists flag, settings. split; [reflexivity | split; [exact Hs | split]].
  - intros v Hin Hk. apply list_elem_of_In in Hin.
    pose proof (find_none _ _ Hf v Hin) as Hn. simpl in Hn.
    now rewrite bool_decide_eq_true_2 in Hn.
  - rewrite H. simpl. now destruct (_ && _).
Qed.

Lemma deleteVariation_Resolved found environment variationKey flag' :
  deleteVariation found environment variationKey = Resolved flag' ->
  exists flag settings,
    found = Some flag /\ environments flag !! environment = Some settings
    /\ (exists v, v ∈ variations settings /\ variation_key v = variationKey)
    /\ let remaining :=
         filter (fun v => variation_key v <> variationKey) (variations settings) in
       (defaultVariation settings = Some variationKey ->
        exists newDefault,
          head remaining = Some newDefault
          /\ flag' = environments_set flag environment
                       (set_variations
                          (set_defaultVariation settings
                             (Some (variation_key newDefault)))
                          remaining))
       /\ (defaultVariation settings <> Some variationKey ->
           flag' = environments_set flag environment
                     (set_variations settings remaining)).
Proof.
  unfold deleteVariation.
  destruct (find_settings found environment) as [[flag settings]|] eqn:E;
    [|discriminate].
  apply find_settings_Resolved in E as [-> Hs].
  destruct (existsb _ (variations settings)) eqn:Hex; simpl; [|discriminate].
  intros H. exists flag, settings.
  split; [reflexivity | split; [exact Hs | split]].
  { apply existsb_exists in Hex as (v & Hin & Hk).
    exists v. split; [now apply list_elem_of_In | exact (bool_decide_eq_true_1 _ Hk)]. }
  destruct (bool_decide (defaultVariation settings = Some variationKey)) eqn:Hd.
  - apply bool_decide_eq_true_1 in Hd.
    destruct (length (variations settings) =? 1)%nat; [discriminate|].
    destruct (find _ (variations settings)) as [newDefault|] eqn:Hf; [|discriminate].
    apply set_and_save_Resolved in H. split; [|congruence].
    intros _. exists newDefault. split; [|exact H].
    clear -Hf. induction (variations settings) as [|x l IH]; simpl in *;
      [discriminate|].
    rewrite filter_cons.
    destruct (decide (variation_key x <> variationKey)) as [Hx|Hx].
    + rewrite bool_decide_eq_false_2 in Hf by exact Hx. now injection Hf as ->.
    + rewrite bool_decide_eq_true_2 in Hf by (now apply dec_stable). now apply IH.
  - apply bool_decide_eq_false_1 in Hd.
    apply set_and_save_Resolved in H. split; [congruence | now intros _].
Qed.

Lemma setDefaultVariation_Resolved found environment variationKey flag' :
  setDefaultVariation found environment variationKey = Resolved flag' ->
  exists flag settings,
    found = Some flag /\ environments flag !! environment = Some settings
    /\ existsb (fun v => bool_decide (variation_key v = variationKey))
               (variations settings) = true
    /\ flag' = environments_set flag environment
                 (set_defaultVariation settings (Some variationKey)).
Proof.
  unfold setDefaultVariation.
  destruct (find_settings found environment) as [[flag settings]|] eqn:E;
    [|discriminate].
  apply find_settings_Resolved in E as [-> Hs].
  destruct (existsb _ (variations settings)) eqn:Hex; simpl; [|discriminate].
  intros H. apply set_and_save_Resolved in H. eauto 10.
Qed.


(** X16: the functions of the flag service that change the settings of one
    environment ([toggleFlag], [addFlagRule], [addVariation],
    [deleteVariation], [setDefaultVariation]) leave the evaluation of the flag
    in every other environment as it was. *)
Theorem flag_service_frame (flag flag' : Flag) (environment environment' : jsstring)
    (context : gmap jsstring JsVal) (now : Z) :
  environment' <> environment ->
  (forall b, toggleFlag (Some flag) environment b = Resolved flag' ->
     evaluate flag' environment' context now
     = evaluate flag environment' context now)
  /\ (forall ruleData,
        addFlagRule (Some flag) environment ruleData = Resolved flag' ->
        evaluate flag' environment' context now
        = evaluate flag environment' context now)
  /\ (forall variationData,
        addVariation (Some flag) environment variationData = Resolved flag' ->
        evaluate flag' environment' context now
        = evaluate flag environment' context now)
  /\ (forall variationKey,
        deleteVariation (Some flag) environment variationKey = Resolved flag' ->
        evaluate flag' environment' context now
        = evaluate flag environment' context now)
  /\ (forall variationKey,
        setDefaultVariation (Some flag) environment variationKey = Resolved flag' ->
        evaluate flag' environment' context now
        = evaluate flag environment' context now).
Proof.
  intros Hne. repeat split.
  - intros b H.
    apply toggleFlag_Resolved in H as (f & s & [= <-] & _ & ->).
    now apply evaluate_environments_set_ne.
  - intros r H.
    apply addFlagRule_Resolved in H as (f & s & [= <-] & _ & ->).
    now apply evaluate_environments_set_ne.
  - intros vd H.
    apply addVariation_Resolved in H as (f & s & [= <-] & _ & _ & ->).
    now apply evaluate_environments_set_ne.
  - intros k H.
    apply deleteVariation_Resolved in H as (f & s & [= <-] & _ & _ & Hd & Hn).
    destruct (decide (defaultVariation s = Some k)) as [E|E].
    + destruct (Hd E) as (nd & _ & ->). now apply evaluate_environments_set_ne.
    + rewrite (Hn E). now apply evaluate_environments_set_ne.
  - intros k H.
    apply setDefaultVariation_Resolved in H as (f & s & [= <-] & _ & _ & ->).
    now apply evaluate_environments_set_ne.
Qed.

(** X17: after [toggleFlag] has switched an environment off, every context
    evaluates to the default value of the settings, whatever the rules. *)
Theorem toggleFlag_off (flag flag' : Flag) (environment : jsstring)
    (settings : EnvironmentSettings) (context : gmap jsstring JsVal) (now : Z) :
  environments flag !! environment = Some settings ->
  toggleFlag (Some flag) environment false = Resolved flag' ->
  evaluate flag' environment context now
  = Returned (resolveDefault (type flag) settings).
Proof.
  intros Hs H. apply toggleFlag_Resolved in H as (f & s & [= <-] & Hs' & ->).
  rewrite Hs in Hs'. injection Hs' as <-.
  now rewrite evaluate_environments_set_eq.
Qed.

Lemma environments_set_id flag environment settings :
  environments flag !! environment = Some settings ->
  environments_set flag environment settings = flag.
Proof.
  intros H. unfold environments_set. rewrite (insert_id _ _ _ H). now destruct flag.
Qed.

Lemma environments_set_set flag environment s1 s2 :
  environments_set (environments_set flag environment s1) environment s2
  = environments_set flag environment s2.
Proof. unfold environments_set. simpl. now rewrite insert_insert_eq. Qed.

(** X18: toggling an environment and toggling it back to its former state
    restores the flag. *)
Theorem toggleFlag_round_trip (flag flag1 flag2 : Flag) (environment : jsstring)
    (settings : EnvironmentSettings) (b : bool) :
  environments flag !! environment = Some settings ->
  toggleFlag (Some flag) environment b = Resolved flag1 ->
  toggleFlag (Some flag1) environment (enabled settings) = Resolved flag2 ->
  flag2 = flag.
Proof.
  intros Hs H1 H2.
  apply toggleFlag_Resolved in H1 as (f & s & [= <-] & Hs1 & ->).
  rewrite Hs in Hs1. injection Hs1 as <-.
  apply toggleFlag_Resolved in H2 as (f & s & [= <-] & Hs2 & ->).
  simpl in Hs2. rewrite lookup_insert_eq in Hs2. injection Hs2 as <-.
  rewrite environments_set_set. apply environments_set_id.
  rewrite Hs. now destruct settings.
Qed.


Lemma validator_existsb settings c k :
  defaultVariation_validator settings (Some (c :: k)) = true ->
  exists v, v ∈ variations settings /\ variation_key v = c :: k.
Proof.
  unfold defaultVariation_validator.
  destruct (variations settings) as [|x l]; [discriminate|].
  intros H. apply existsb_exists in H as (v & Hin & Hk).
  exists v. split; [now apply list_elem_of_In | exact (bool_decide_eq_true_1 _ Hk)].
Qed.

Lemma validator_intro settings v k :
  v ∈ variations settings -> variation_key v = k ->
  defaultVariation_validator settings (Some k) = true.
Proof.
  intros Hin Hk. unfold defaultVariation_validator.
  destruct k as [|c k]; [reflexivity|].
  destruct (variations settings) as [|x l] eqn:E; [now apply elem_of_nil in Hin|].
  apply existsb_exists. exists v. split; [now apply list_elem_of_In|].
  now apply bool_decide_eq_true_2.
Qed.

(** X20: [addVariation] keeps the settings well formed (distinct variation
    keys, a [defaultVariation] the validator accepts); it appends the
    variation, makes it the default when it is the first one, and leaves the
    default alone otherwise. *)
Theorem addVariation_keeps_wf (flag flag' : Flag) (environment : jsstring)
    (settings : EnvironmentSettings) (variationData : Variation) :
  environments flag !! environment = Some settings ->
  settings_wf settings ->
  addVariation (Some flag) environment variationData = Resolved flag' ->
  exists settings',
    environments flag' !! environment = Some settings'
    /\ settings_wf settings'
    /\ variations settings' = variations settings ++ [variationData]
    /\ (variations settings = [] ->
        defaultVariation settings' = Some (variation_key variationData))
    /\ (variations settings <> [] ->
        defaultVariation settings' = defaultVariation settings).
Proof.
  intros Hs [Hnd Hval] H.
  apply addVariation_Resolved in H as (f & s & [= <-] & Hs' & Hfresh & ->).
  rewrite Hs in Hs'. injection Hs' as <-.
  assert (Hlen : forall l : list Variation,
            l <> [] -> (length (l ++ [variationData]) =? 1)%nat = false).
  { intros [|x l] Hl; [congruence|]. apply Nat.eqb_neq.
    rewrite length_app. simpl. lia. }
  eexists. split; [apply lookup_insert_eq|].
  split; [|split; [reflexivity|split]].
  - split.
    + simpl. rewrite fmap_app. apply NoDup_app. split; [exact Hnd|]. split.
      * intros k Hk Hk'. apply list_elem_of_singleton in Hk'. subst k.
        apply list_elem_of_fmap in Hk as (v & Hkv & Hv).
        now apply (Hfresh v Hv).
      * apply NoDup_singleton.
    + cbn [defaultVariation set_defaultVariation].
      destruct (variations settings) as [|x l] eqn:Ev.
      * destruct (defaultVariation settings) as [[|c k]|] eqn:Ed.
        -- apply (validator_intro _ variationData); [|reflexivity].
           simpl. apply list_elem_of_here.
        -- unfold defaultVariation_validator in Hval. now rewrite Ev in Hval.
        -- apply (validator_intro _ variationData); [|reflexivity].
           simpl. apply list_elem_of_here.
      * rewrite Hlen by discriminate. cbn [andb].
        destruct (defaultVariation settings) as [[|c k]|] eqn:Ed;
          try reflexivity.
        destruct (validator_existsb _ _ _ Hval) as (v & Hin & Hk).
        apply (validator_intro _ v); [|exact Hk].
        rewrite Ev in Hin. cbn [variations set_defaultVariation set_variations].
        apply elem_of_app. now left.
  - intros Hnil. cbn [defaultVariation set_defaultVariation]. rewrite Hnil.
    destruct (defaultVariation settings) as [[|c k]|] eqn:Ed; try reflexivity.
    unfold defaultVariation_validator in Hval. now rewrite Hnil in Hval.
  - intros Hne. cbn [defaultVariation set_defaultVariation].
    now rewrite Hlen.
Qed.


Lemma filter_key_NoDup (l : list Variation) k :
  NoDup (variation_key <$> l) ->
  NoDup (variation_key <$> filter (fun v => variation_key v <> k) l).
Proof.
  intros H. eapply sublist_NoDup; [exact H|].
  apply fmap_sublist, sublist_filter.
Qed.

(** X21: [deleteVariation] keeps the settings well formed; it removes the
    variations with the key, keeps the default when another variation was
    deleted, and makes the first remaining variation the default when the
    default was deleted. *)
Theorem deleteVariation_keeps_wf (flag flag' : Flag) (environment : jsstring)
    (settings : EnvironmentSettings) (variationKey : jsstring) :
  environments flag !! environment = Some settings ->
  settings_wf settings ->
  deleteVariation (Some flag) environment variationKey = Resolved flag' ->
  exists settings',
    environments flag' !! environment = Some settings'
    /\ settings_wf settings'
    /\ variations settings'
       = filter (fun v => variation_key v <> variationKey) (variations settings)
    /\ (defaultVariation settings <> Some variationKey ->
        defaultVariation settings' = defaultVariation settings)
    /\ (defaultVariation settings = Some variationKey ->
        exists first, head (variations settings') = Some first
                      /\ defaultVariation settings' = Some (variation_key first)).
Proof.
  intros Hs [Hnd Hval] H.
  apply deleteVariation_Resolved in H as (f & s & [= <-] & Hs' & _ & Hd & Hn).
  rewrite Hs in Hs'. injection Hs' as <-.
  destruct (decide (defaultVariation settings = Some variationKey)) as [E|E].
  - destruct (Hd E) as (nd & Hhead & ->).
    eexists. split; [apply lookup_insert_eq|].
    split; [|split; [reflexivity | split; [congruence|]]].
    + split; [now apply filter_key_NoDup|].
      cbn [defaultVariation set_defaultVariation set_variations].
      apply (validator_intro _ nd); [|reflexivity].
      cbn [variations set_variations]. now apply head_Some_elem_of.
    + intros _. exists nd. split; [exact Hhead | reflexivity].
  - rewrite (Hn E).
    eexists. split; [apply lookup_insert_eq|].
    split; [|split; [reflexivity | split; [reflexivity | congruence]]].
    split; [now apply filter_key_NoDup|].
    cbn [defaultVariation set_variations].
    destruct (defaultVariation settings) as [[|c k]|] eqn:Ed; try reflexivity.
    destruct (validator_existsb _ _ _ Hval) as (v & Hin & Hk).
    apply (validator_intro _ v); [|exact Hk].
    cbn [variations set_variations]. apply list_elem_of_filter.
    split; [congruence | exact Hin].
Qed.

(** X22: after the default variation of a flag that is not BOOLEAN has been
    deleted, [getDefaultValue] returns the value of the first remaining
    variation. *)
Theorem deleteVariation_of_default (flag flag' : Flag) (environment : jsstring)
    (settings : EnvironmentSettings) (variationKey : jsstring) :
  environments flag !! environment = Some settings ->
  type flag <> BOOLEAN ->
  defaultVariation settings = Some variationKey ->
  deleteVariation (Some flag) environment variationKey = Resolved flag' ->
  exists first,
    head (filter (fun v => variation_key v <> variationKey) (variations settings))
    = Some first
    /\ getDefaultValue flag' environment = Returned (variation_value first).
Proof.
  intros Hs Hty Hdef H.
  apply deleteVariation_Resolved in H as (f & s & [= <-] & Hs' & _ & Hd & _).
  rewrite Hs in Hs'. injection Hs' as <-.
  destruct (Hd Hdef) as (nd & Hhead & ->).
  exists nd. split; [exact Hhead|].
  rewrite (getDefaultValue_present _ environment
             (set_variations
                (set_defaultVariation settings (Some (variation_key nd)))
                (filter (fun v => variation_key v <> variationKey)
                        (variations settings))))
    by apply lookup_insert_eq.
  f_equal. apply head_Some in Hhead as [rest Hrest].
  assert (E : forall flagType, flagType <> BOOLEAN ->
            resolveDefault flagType
              (set_variations
                 (set_defaultVariation settings (Some (variation_key nd)))
                 (nd :: rest)) = variation_value nd).
  { intros flagType Hft.
    assert (Hkey : match variation_key nd with
                   | [] => variation_key nd
                   | c :: k => c :: k
                   end = variation_key nd) by now destruct (variation_key nd).
    destruct flagType; try congruence; simpl; rewrite Hkey;
      now rewrite bool_decide_eq_true_2. }
  rewrite Hrest. now apply E.
Qed.

(** X23: after [setDefaultVariation] with a non-empty key, [getDefaultValue]
    of a flag that is not BOOLEAN returns the value of the variation with
    that key. *)
Theorem setDefaultVariation_then_getDefaultValue (flag flag' : Flag)
    (environment : jsstring) (settings : EnvironmentSettings)
    (variationKey : jsstring) :
  environments flag !! environment = Some settings ->
  type flag <> BOOLEAN ->
  variationKey <> [] ->
  setDefaultVariation (Some flag) environment variationKey = Resolved flag' ->
  exists variation,
    find (fun v => bool_decide (variation_key v = variationKey))
         (variations settings) = Some variation
    /\ getDefaultValue flag' environment = Returned (variation_value variation).
Proof.
  intros Hs Hty Hk H.
  apply setDefaultVariation_Resolved in H as (f & s & [= <-] & Hs' & Hex & ->).
  rewrite Hs in Hs'. injection Hs' as <-.
  destruct (find_key_exists _ _ Hex) as [v Hv]. exists v. split; [exact Hv|].
  rewrite (getDefaultValue_present _ environment
             (set_defaultVariation settings (Some variationKey)))
    by apply lookup_insert_eq.
  f_equal. destruct variationKey as [|c k]; [congruence|].
  destruct (variations settings) as [|x l] eqn:Ev; [discriminate|].
  cbn [type environments_set].
  destruct (type flag); try congruence; simpl; rewrite Ev; simpl in Hv |- *;
    now rewrite Hv.
Qed.

(** X24: the first variation added to an environment without variations
    becomes its default and cannot be deleted afterwards: [deleteVariation]
    rejects with status 400. *)
Theorem first_variation_cannot_be_deleted (flag flag1 : Flag) (environment : jsstring)
    (settings : EnvironmentSettings) (variationData : Variation) :
  environments flag !! environment = Some settings ->
  variations settings = [] ->
  is_falsy_key (defaultVariation settings) = true ->
  addVariation (Some flag) environment variationData = Resolved flag1 ->
  deleteVariation (Some flag1) environment (variation_key variationData)
  = Rejected (HttpError (str "Cannot delete the only variation") 400).
Proof.
  intros Hs Hnil Hfalsy H.
  apply addVariation_Resolved in H as (f & s & [= <-] & Hs' & _ & ->).
  rewrite Hs in Hs'. injection Hs' as <-.
  unfold deleteVariation, find_settings.
  cbn [environments environments_set]. rewrite lookup_insert_eq.
  rewrite Hnil, Hfalsy. simpl.
  now rewrite !bool_decide_eq_true_2.
Qed.

End FlagServiceProperties.

Section CreateFlagProperties.

Context (NumberToString : Q -> jsstring) (ObjectToString : N -> option jsstring).
Context (DateParse : jsstring -> JsDate) (ObjectToDate : N -> option JsDate).
Context (create : Flag -> bool).

#[local] Abbreviation evaluateRule :=
  (evaluateRule NumberToString ObjectToString DateParse ObjectToDate).
#[local] Abbreviation evaluate :=
  (evaluate NumberToString ObjectToString DateParse ObjectToDate).
#[local] Abbreviation createFlag := (createFlag create).

Lemma foldl_insert_lookup {V} (f : jsstring -> V) (l : list jsstring)
    (m : gmap jsstring V) env :
  foldl (fun acc e => <[e := f e]> acc) m l !! env
  = if decide (env ∈ l) then Some (f env) else m !! env.
Proof.
  revert m. induction l as [|e l IH]; intros m.
  - destruct (decide (env ∈ [])) as [H|H]; [now apply elem_of_nil in H | reflexivity].
  - cbn [foldl]. rewrite IH.
    destruct (decide (env ∈ l)) as [Hin|Hin];
      destruct (decide (env ∈ e :: l)) as [Hin'|Hin']; try reflexivity.
    + exfalso. apply Hin'. now apply list_elem_of_further.
    + apply elem_of_cons in Hin' as [->|?]; [apply lookup_insert_eq | done].
    + apply lookup_insert_ne. intros ->. apply Hin', list_elem_of_here.
Qed.

Lemma createFlag_Resolved existingFlag project flagData flag :
  createFlag existingFlag project flagData = Resolved flag ->
  exists project_environments,
    existingFlag = None /\ project = Some project_environments
    /\ key flag = data_key flagData
    /\ type flag = default BOOLEAN (data_type flagData)
    /\ forall env,
         environments flag !! env
         = if decide (env ∈ project_environments)
           then Some (initial_settings (default BOOLEAN (data_type flagData))
                        match data_environments flagData with
                        | Some environments => default no_data (environments !! env)
                        | None => no_data
                        end)
           else None.
Proof.
  unfold createFlag.
  destruct existingFlag; [discriminate|].
  destruct project as [envs|]; [|discriminate].
  destruct (create _); [|discriminate]. intros [= <-].
  exists envs. repeat split. intros env. simpl.
  rewrite (foldl_insert_lookup
             (fun e => initial_settings (default BOOLEAN (data_type flagData))
                         match data_environments flagData with
                         | Some environments => default no_data (environments !! e)
                         | None => no_data
                         end)).
  now destruct (decide (env ∈ envs)).
Qed.

(** X25: a flag that [createFlag] has created has settings for every
    environment of the project: there its evaluation does not throw the
    environment-not-found error (it throws nothing but the TypeError of a
    rule), and it returns a value when the evaluation of none of the rules
    given for the environment throws.  In every other environment it throws
    the environment-not-found error. *)
Theorem createFlag_environments (existingFlag : option Flag)
    (project_environments : list jsstring) (flagData : FlagData) (flag : Flag)
    (environment : jsstring) (context : gmap jsstring JsVal) (now : Z) :
  createFlag existingFlag (Some project_environments) flagData = Resolved flag ->
  (environment ∈ project_environments ->
     exists envSettings,
       environments flag !! environment = Some envSettings
       /\ (forall e, evaluate flag environment context now = Thrown e ->
             e = TypeError)
       /\ ((forall r e, r ∈ rules envSettings ->
              evaluateRule flag now r context <> Thrown e) ->
           exists v, evaluate flag environment context now = Returned v))
  /\ (environment ∉ project_environments ->
        evaluate flag environment context now
        = Thrown (EnvironmentNotFound environment (data_key flagData))).
Proof.
  intros H. apply createFlag_Resolved in H as (envs & _ & [= <-] & Hk & _ & Henv).
  specialize (Henv environment). split; intros Hin.
  - rewrite decide_True in Henv by exact Hin.
    eexists. split; [exact Henv|]. split.
    + intros e. apply evaluate_settings_Thrown. now rewrite Henv.
    + now apply evaluate_settings_Returned.
  - rewrite decide_False in Henv by exact Hin.
    now rewrite (evaluate_absent _ _ _ _ _ _ _ _ Henv), Hk.
Qed.

(** X26: a flag created without settings for its environments is off
    everywhere: in every environment of the project it evaluates to [false]
    when it is BOOLEAN and to [null] otherwise, whatever the context. *)
Theorem createFlag_starts_off (existingFlag : option Flag)
    (project_environments : list jsstring) (flagData : FlagData) (flag : Flag)
    (environment : jsstring) (context : gmap jsstring JsVal) (now : Z) :
  createFlag existingFlag (Some project_environments) flagData = Resolved flag ->
  data_environments flagData = None ->
  environment ∈ project_environments ->
  evaluate flag environment context now
  = Returned match type flag with
             | BOOLEAN => VBool false
             | _ => VNull
             end.
Proof.
  intros H Hnone Hin.
  apply createFlag_Resolved in H as (envs & _ & [= <-] & _ & Hty & Henv).
  specialize (Henv environment). rewrite decide_True in Henv by exact Hin.
  rewrite Hnone in Henv.
  rewrite (evaluate_present _ _ _ _ _ _ _ _ _ Henv), Hty. simpl.
  now destruct (default BOOLEAN (data_type flagData)).
Qed.

End CreateFlagProperties.

Section SdkProperties.

Context (stringify : list (jsstring * JsVal) -> option jsstring).
Context (Object_prototype_member : jsstring -> N).

#[local] Abbreviation getCacheKey := (getCacheKey stringify).
#[local] Abbreviation getValue := (getValue stringify Object_prototype_member).

(** X29: with the cache enabled, a value [getValue] has fetched is served
    again for the same flag and the same context, its properties in the
    same order, while its age is below [cacheTtl], whatever the server would
    answer; once the age reaches [cacheTtl] it is not served any more, even
    when the request fails.  A context with another cache key (the same
    properties in another order, for one) is not served from that entry: the
    server is asked. *)
Theorem getValue_cache_round_trip (this : FlagManager) (flagKey : jsstring)
    (context : list (jsstring * JsVal)) (defaultValue : JsVal) (now now' : Z)
    (v : JsVal) (cacheKey : jsstring) :
  offline this = false ->
  enableCache this = true ->
  getCacheKey flagKey context = Some cacheKey ->
  cache this !! cacheKey = None ->
  exists this',
    getValue this flagKey context defaultValue now (Some v) now' = (v, this')
    /\ (forall defaultValue2 now2 response2 now2',
          now2 - now' < cacheTtl this ->
          getValue this' flagKey context defaultValue2 now2 response2 now2'
          = (v, this'))
    /\ (forall defaultValue2 now2 now2',
          cacheTtl this <= now2 - now' ->
          getValue this' flagKey context defaultValue2 now2 None now2'
          = (fallback_value this defaultValue2, this'))
    /\ (forall context2 cacheKey2 defaultValue2 now2 v2 now2',
          getCacheKey flagKey context2 = Some cacheKey2 ->
          cacheKey2 <> cacheKey ->
          cache this !! cacheKey2 = None ->
          (getValue this' flagKey context2 defaultValue2 now2 (Some v2) now2').1
          = v2).
Proof.
  intros Hoff Hen Hkey Hmiss.
  eexists. split; [|split; [|split]].
  - unfold getValue. rewrite Hoff, Hen, Hkey, Hmiss. reflexivity.
  - intros d2 now2 r2 now2' Hfresh.
    unfold getValue. cbn [offline enableCache cache cacheTtl set_cache].
    rewrite Hoff, Hen, Hkey, lookup_insert_eq. cbn [entry_timestamp entry_value].
    now rewrite (proj2 (Z.ltb_lt _ _) Hfresh).
  - intros d2 now2 now2' Hstale.
    unfold getValue. cbn [offline enableCache cache cacheTtl set_cache].
    rewrite Hoff, Hen, Hkey, lookup_insert_eq. cbn [entry_timestamp entry_value].
    now rewrite (proj2 (Z.ltb_ge _ _) Hstale).
  - intros context2 cacheKey2 d2 now2 v2 now2' Hkey2 Hne Hmiss2.
    unfold getValue. cbn [offline enableCache cache cacheTtl set_cache].
    rewrite Hoff, Hen, Hkey2, lookup_insert_ne, Hmiss2 by congruence.
    reflexivity.
Qed.

Lemma startsWith_app s rest : startsWith (s ++ rest) s = true.
Proof.
  induction s as [|c s IH]; simpl; [reflexivity|].
  now rewrite N.eqb_refl, IH.
Qed.

Lemma startsWith_colon_free k k' rest :
  58%N ∉ k -> 58%N ∉ k' ->
  startsWith (k' ++ str ":" ++ rest) (k ++ str ":") = true -> k = k'.
Proof.
  change (str ":") with [58%N].
  revert k'. induction k as [|c k IH]; intros [|d k'] Hk Hk'; cbn [app startsWith].
  - reflexivity.
  - rewrite andb_true_iff, N.eqb_eq. intros [<- _].
    exfalso. apply Hk', list_elem_of_here.
  - rewrite andb_true_iff, N.eqb_eq. intros [-> _].
    exfalso. apply Hk, list_elem_of_here.
  - rewrite andb_true_iff, N.eqb_eq. intros [-> H]. f_equal.
    apply IH; [| |exact H].
    + intros Hin. apply Hk. now apply list_elem_of_further.
    + intros Hin. apply Hk'. now apply list_elem_of_further.
Qed.

(** X30: [clearCache] without a flag key, or with the empty key, empties the
    cache; with a key it removes that flag's entries, and it keeps the entries
    of every other flag when neither key contains a colon. *)
Theorem clearCache_spec (this : FlagManager) (flagKey : jsstring)
    (context : list (jsstring * JsVal)) :
  cache (clearCache this None) = ∅
  /\ cache (clearCache this (Some [])) = ∅
  /\ (forall cacheKey,
        flagKey <> [] ->
        getCacheKey flagKey context = Some cacheKey ->
        cache (clearCache this (Some flagKey)) !! cacheKey = None)
  /\ (forall other cacheKey,
        flagKey <> [] -> 58%N ∉ flagKey -> 58%N ∉ other -> other <> flagKey ->
        getCacheKey other context = Some cacheKey ->
        cache (clearCache this (Some flagKey)) !! cacheKey
        = cache this !! cacheKey).
Proof.
  split; [reflexivity|]. split; [reflexivity|]. split.
  - intros cacheKey Hne. destruct flagKey as [|c k]; [congruence|].
    unfold getCacheKey. destruct (stringify context) as [json|]; [|discriminate].
    intros Hkey.
    assert (cacheKey = (c :: k) ++ str ":" ++ json) as ->
      by (now injection Hkey as <-).
    cbn [clearCache cache set_cache].
    apply map_lookup_filter_None. right. intros entry _. cbn [fst].
    rewrite (assoc_L (++)), startsWith_app. discriminate.
  - intros other cacheKey Hne Hk Ho Hdiff.
    destruct flagKey as [|c k]; [congruence|].
    unfold getCacheKey. destruct (stringify context) as [json|]; [|discriminate].
    intros Hkey.
    assert (cacheKey = other ++ str ":" ++ json) as ->
      by (now injection Hkey as <-).
    cbn [clearCache cache set_cache].
    assert (Hkeep : startsWith (other ++ str ":" ++ json) ((c :: k) ++ str ":")
                    = false).
    { destruct (startsWith _ _) eqn:E; [|reflexivity].
      apply startsWith_colon_free in E; congruence. }
    destruct (cache this !! (other ++ str ":" ++ json)) as [entry|] eqn:El.
    + apply map_lookup_filter_Some. split; [exact El | exact Hkeep].
    + apply map_lookup_filter_None. now left.
Qed.

End SdkProperties.

Lemma filter_ne_absent (l : list jsstring) (x : jsstring) :
  x ∉ l -> filter (fun env => env <> x) l = l.
Proof.
  induction l as [|y l IH]; intros H; [reflexivity|].
  apply not_elem_of_cons in H as [Hne Hl].
  rewrite filter_cons_True by congruence. now rewrite IH.
Qed.

Lemma filter_ne_length (l : list jsstring) (x : jsstring) :
  NoDup l -> x ∈ l ->
  S (length (filter (fun env => env <> x) l)) = length l.
Proof.
  induction 1 as [|y l Hy Hnd IH]; intros Hin; [now apply elem_of_nil in Hin|].
  destruct (decide (y = x)) as [->|Hne].
  - rewrite filter_cons_False by (intros H; now apply H).
    now rewrite filter_ne_absent.
  - rewrite filter_cons_True by exact Hne. simpl. f_equal. apply IH.
    apply elem_of_cons in Hin as [?|?]; [congruence | done].
Qed.

(** X27: the methods of the Project model keep the environments distinct
    and the API keys those of the environments; [addEnvironment] returns the
    generated key and stores it, [removeEnvironment] never leaves the project
    without an environment and drops the key, and [regenerateApiKey] changes
    the key only. *)
Theorem project_environments_invariant (this this' : Project)
    (environment generated : jsstring) :
  project_wf this ->
  (forall k, addEnvironment this environment generated = Done k this' ->
     project_wf this'
     /\ k = generated
     /\ apiKeys this' !! environment = Some generated
     /\ environment ∈ project_environments this')
  /\ (forall b, removeEnvironment this environment = Done b this' ->
        project_wf this'
        /\ project_environments this' <> []
        /\ (environment ∉ project_environments this')
        /\ apiKeys this' !! environment = None)
  /\ (forall k, regenerateApiKey this environment generated = Done k this' ->
        project_wf this'
        /\ project_environments this' = project_environments this
        /\ apiKeys this' !! environment = Some generated).
Proof.
  intros [Hnd Hkeys]. split; [|split].
  - intros k. unfold addEnvironment. case_bool_decide as Hin; [discriminate|].
    intros [= <- <-]. simpl. split; [split|].
    + simpl. apply NoDup_app. split; [exact Hnd|]. split; [|apply NoDup_singleton].
      intros x Hx Hx'. apply list_elem_of_singleton in Hx'. congruence.
    + intros env. simpl. rewrite elem_of_app, list_elem_of_singleton, <- Hkeys.
      destruct (decide (env = environment)) as [->|Hne].
      * rewrite lookup_insert_eq. split; [now right | eauto].
      * rewrite lookup_insert_ne by congruence. tauto.
    + split; [reflexivity|]. split; [apply lookup_insert_eq|].
      apply elem_of_app. right. apply list_elem_of_here.
  - intros b. unfold removeEnvironment. case_bool_decide as Hin; [|discriminate].
    simpl. destruct ((length (project_environments this) <=? 1)%nat) eqn:Hlen;
      [discriminate|].
    intros [= <- <-]. simpl. apply Nat.leb_gt in Hlen.
    split; [split|split; [|split]].
    + simpl. now apply NoDup_filter.
    + intros env. simpl. rewrite list_elem_of_filter, <- Hkeys.
      destruct (decide (env = environment)) as [->|Hne].
      * rewrite lookup_delete_eq. split; [intros [x Hx]; discriminate | tauto].
      * rewrite lookup_delete_ne by congruence. tauto.
    + pose proof (filter_ne_length _ _ Hnd Hin) as Hl.
      intros Hnil. rewrite Hnil in Hl. simpl in Hl. lia.
    + rewrite list_elem_of_filter. tauto.
    + apply lookup_delete_eq.
  - intros k. unfold regenerateApiKey. case_bool_decide as Hin; [|discriminate].
    simpl. intros [= <- <-]. simpl. split; [split; [exact Hnd|]|].
    + intros env. simpl. rewrite <- Hkeys.
      destruct (decide (env = environment)) as [->|Hne].
      * rewrite lookup_insert_eq. split; [intros _; apply Hkeys, Hin | eauto].
      * now rewrite lookup_insert_ne by congruence.
    + split; [reflexivity | apply lookup_insert_eq].
Qed.

(** X28: in a project that has an environment already, adding an
    environment and removing it again restores the project, its API keys
    included. *)
Theorem addEnvironment_removeEnvironment_round_trip (this this1 : Project)
    (environment generated k : jsstring) :
  project_wf this ->
  project_environments this <> [] ->
  addEnvironment this environment generated = Done k this1 ->
  removeEnvironment this1 environment = Done true this.
Proof.
  intros [Hnd Hkeys] Hne. unfold addEnvironment.
  case_bool_decide as Hin; [discriminate|]. intros [= <- <-].
  assert (Hlen : (length (project_environments this ++ [environment]) <=? 1)%nat
                 = false).
  { apply Nat.leb_gt. rewrite length_app. simpl.
    destruct (project_environments this); [congruence | simpl; lia]. }
  unfold removeEnvironment. cbn [project_environments apiKeys].
  rewrite bool_decide_eq_true_2
    by (apply elem_of_app; right; apply list_elem_of_here).
  cbn [negb]. rewrite Hlen. f_equal.
  rewrite filter_app, filter_ne_absent by exact Hin.
  rewrite filter_cons_False by (intros H; now apply H).
  rewrite filter_nil, app_nil_r.
  assert (Hfresh : apiKeys this !! environment = None).
  { destruct (apiKeys this !! environment) eqn:Ek; [|reflexivity].
    exfalso. apply Hin, Hkeys. eauto. }
  rewrite delete_insert_eq, (delete_id _ _ Hfresh). now destruct this.
Qed.

(** * The further properties at sample inputs *)

Lemma percentage_thresholds_witness :
  (50 <= 60)%Q
  /\ rule_matches sample_number sample_object sample_parse sample_date F1 0 (user_context "user-228")
       (mkRule (PERCENTAGE 60) 0) = true
  /\ rule_matches sample_number sample_object sample_parse sample_date F1 0 (user_context "user-228")
       (mkRule (PERCENTAGE 0) 0) = false.
Proof.
  assert (H : (50 <= 60)%Q) by (unfold Qle; simpl; lia).
  split; [exact H|].
  destruct (percentage_thresholds sample_number sample_object sample_parse sample_date
              F1 0 0 (user_context "user-228")) as (Hmono & _ & Hzero).
  split.
  - apply (Hmono 50%Q 60%Q 0 H). reflexivity.
  - apply Hzero. apply Qle_refl.
Defined.

Lemma evaluate_context_agreement_witness :
  evaluate sample_number sample_object sample_parse sample_date F1 (str "production") ip_context 0
  = evaluate sample_number sample_object sample_parse sample_date F1 (str "production") pro_context 0.
Proof.
  apply evaluate_context_agreement.
  intros envSettings r k Henv Hr Hk.
  assert (E : environments F1 !! str "production" = Some sample_settings)
    by reflexivity.
  rewrite E in Henv. injection Henv as <-.
  apply elem_of_cons in Hr as [-> | Hr].
  - now apply elem_of_nil in Hk.
  - apply list_elem_of_singleton in Hr as ->.
    apply list_elem_of_singleton in Hk as ->. reflexivity.
Defined.

Lemma evaluate_value_range_witness :
  environments F1 !! str "production" = Some sample_settings
  /\ (VBool true = resolveDefault (type F1) sample_settings
      \/ VBool true = VBool true
      \/ exists r, r ∈ rules sample_settings /\ rule_body r = DEFAULT (VBool true)).
Proof.
  split; [reflexivity|].
  apply (evaluate_value_range sample_number sample_object sample_parse sample_date
           F1 (str "production") pro_context 0 sample_settings (VBool true));
    reflexivity.
Defined.

Lemma evaluate_matching_rules_only_witness :
  evaluate sample_number sample_object sample_parse sample_date
    (environments_set F1 (str "production")
       (set_rules sample_settings (closed_rule :: sample_rules)))
    (str "production") pro_context 0
  = evaluate sample_number sample_object sample_parse sample_date F1 (str "production") pro_context 0.
Proof.
  apply (evaluate_matching_rules_only sample_number sample_object sample_parse sample_date
           F1 (str "production") pro_context 0 sample_settings
           (closed_rule :: sample_rules)); reflexivity.
Defined.

Lemma evaluate_winner_witness :
  environments F1 !! str "production" = Some sample_settings
  /\ rule_stops sample_number sample_object sample_parse sample_date F1 0
       pro_context segment_rule = true
  /\ evaluate sample_number sample_object sample_parse sample_date
       F1 (str "production") pro_context 0
     = Returned (VBool true).
Proof.
  split; [reflexivity|]. split; [reflexivity|].
  assert (Hmax : forall r', r' ∈ rules sample_settings ->
            rule_stops sample_number sample_object sample_parse sample_date F1 0
              pro_context r' = true ->
            priority r' <= priority segment_rule).
  { intros r' Hin _. apply elem_of_cons in Hin as [-> | Hin]; [simpl; lia|].
    apply list_elem_of_singleton in Hin as ->. simpl. lia. }
  destruct (evaluate_winner sample_number sample_object sample_parse sample_date
              F1 (str "production") pro_context 0 sample_settings segment_rule
              eq_refl eq_refl eq_refl Hmax eq_refl) as [_ Hvalue].
  apply (Hvalue {| matches := true; result_value := VBool true |}). reflexivity.
Defined.

Lemma evaluate_rule_order_irrelevant_witness :
  [segment_rule; default_rule] ≡ₚ rules sample_settings
  /\ NoDup (priority <$> rules sample_settings)
  /\ evaluate sample_number sample_object sample_parse sample_date
       (environments_set F1 (str "production")
          (set_rules sample_settings [segment_rule; default_rule]))
       (str "production") pro_context 0
     = evaluate sample_number sample_object sample_parse sample_date F1 (str "production")
         pro_context 0.
Proof.
  assert (Hp : [segment_rule; default_rule] ≡ₚ rules sample_settings)
    by apply Permutation_swap.
  assert (Hnd : NoDup (priority <$> rules sample_settings)).
  { apply NoDup_cons. split; [|apply NoDup_singleton].
    intros H. apply list_elem_of_singleton in H. discriminate H. }
  split; [exact Hp|]. split; [exact Hnd|].
  apply (evaluate_rule_order_irrelevant sample_number sample_object sample_parse sample_date
           F1 (str "production") pro_context 0 sample_settings
           [segment_rule; default_rule] eq_refl Hp Hnd).
Defined.

Lemma default_rule_catch_all_witness :
  default_rule ∈ rules sample_settings
  /\ exists r,
       r ∈ rules sample_settings
       /\ rule_stops sample_number sample_object sample_parse sample_date F1 0 ∅ r
          = true
       /\ priority default_rule <= priority r
       /\ evaluate sample_number sample_object sample_parse sample_date
            F1 (str "production") ∅ 0
          = rule_outcome sample_number sample_object sample_parse sample_date
              F1 0 ∅ r.
Proof.
  assert (Hin : default_rule ∈ rules sample_settings) by apply list_elem_of_here.
  split; [exact Hin|].
  destruct (default_rule_catch_all sample_number sample_object sample_parse
              sample_date F1 (str "production") ∅ 0 sample_settings default_rule
              (VStr (str "A")) eq_refl eq_refl Hin eq_refl)
    as (r & Hr & Hstop & Hprio & Hev & _).
  exists r. split; [exact Hr|]. split; [exact Hstop|]. split; [exact Hprio|].
  exact Hev.
Defined.

Lemma validated_default_is_a_variation_witness :
  defaultVariation_validator default_A_settings (defaultVariation default_A_settings)
  = true
  /\ exists variation,
       variation ∈ variations default_A_settings
       /\ resolveDefault STRING default_A_settings = variation_value variation
       /\ (forall k, defaultVariation default_A_settings = Some k -> k <> [] ->
             variation_key variation = k).
Proof.
  split; [reflexivity|].
  apply (validated_default_is_a_variation STRING default_A_settings);
    [discriminate | discriminate | reflexivity].
Defined.

Lemma evaluateAllFlags_order_irrelevant_witness :
  NoDup (key <$> [F1; F2])
  /\ evaluateAllFlags sample_number sample_object sample_parse sample_date [F2; F1]
       (str "production") pro_context 0
     = evaluateAllFlags sample_number sample_object sample_parse sample_date [F1; F2]
         (str "production") pro_context 0.
Proof.
  assert (Hnd : NoDup (key <$> [F1; F2])).
  { apply NoDup_cons. split; [|apply NoDup_singleton].
    intros H. apply list_elem_of_singleton in H. discriminate H. }
  split; [exact Hnd|].
  apply (evaluateAllFlags_order_irrelevant sample_number sample_object sample_parse sample_date
           [F1; F2] [F2; F1] (str "production") pro_context 0 Hnd).
  apply Permutation_swap.
Defined.

Lemma evaluateFlag_agrees_with_evaluateAllFlags_witness :
  NoDup (key <$> [F1; F2])
  /\ exists results : gmap jsstring JsVal,
       evaluateAllFlags sample_number sample_object sample_parse sample_date [F1; F2]
         (str "production") pro_context 0 = Returned results
       /\ results !! str "new-checkout" = Some (VBool true).
Proof.
  assert (Hnd : NoDup (key <$> [F1; F2])).
  { apply NoDup_cons. split; [|apply NoDup_singleton].
    intros H. apply list_elem_of_singleton in H. discriminate H. }
  split; [exact Hnd|].
  destruct (evaluateFlag_agrees_with_evaluateAllFlags
              sample_number sample_object sample_parse sample_date
              [F1; F2] (str "production") pro_context 0 Hnd)
    as (results & Hres & _ & Hagree).
  exists results. split; [exact Hres|].
  apply Hagree; [discriminate | reflexivity].
Defined.

Lemma getClientFlags_segment_other_attribute_witness :
  (str "plan", VStr (str "pro")) ∈ [(str "plan", VStr (str "pro"))]
  /\ rule_matches sample_number sample_object sample_parse sample_date F1 0
       (getClientFlags_context (VStr (str "user-1")) (VStr (str "10.0.0.1")))
       segment_rule = false.
Proof.
  assert (Hin : (str "plan", VStr (str "pro")) ∈ [(str "plan", VStr (str "pro"))])
    by apply list_elem_of_here.
  split; [exact Hin|].
  apply (getClientFlags_segment_other_attribute sample_number sample_object sample_parse sample_date
           F1 0 10 (VStr (str "user-1")) (VStr (str "10.0.0.1"))
           [(str "plan", VStr (str "pro"))] (str "plan") (VStr (str "pro")) Hin);
    discriminate.
Defined.

Lemma flag_service_frame_witness :
  toggleFlag always_resolves (Some F1) (str "production") false = Resolved F1_off
  /\ evaluate sample_number sample_object sample_parse sample_date F1_off (str "staging") pro_context 0
     = evaluate sample_number sample_object sample_parse sample_date F1 (str "staging") pro_context 0.
Proof.
  split; [reflexivity|].
  apply (proj1 (flag_service_frame sample_number sample_object sample_parse sample_date
                  always_resolves F1 F1_off (str "production") (str "staging")
                  pro_context 0 ltac:(discriminate)) false).
  reflexivity.
Defined.

Lemma toggleFlag_off_witness :
  toggleFlag always_resolves (Some F1) (str "production") false = Resolved F1_off
  /\ evaluate sample_number sample_object sample_parse sample_date F1_off (str "production")
       pro_context 0
     = Returned (VNum 1).
Proof.
  split; [reflexivity|].
  apply (toggleFlag_off sample_number sample_object sample_parse sample_date always_resolves
           F1 F1_off (str "production") sample_settings pro_context 0);
    reflexivity.
Defined.

Lemma toggleFlag_round_trip_witness :
  toggleFlag always_resolves (Some F1) (str "production") false = Resolved F1_off
  /\ toggleFlag always_resolves (Some F1_off) (str "production") true
     = Resolved (environments_set F1_off (str "production")
                   (set_enabled (set_enabled sample_settings false) true))
  /\ environments_set F1_off (str "production")
       (set_enabled (set_enabled sample_settings false) true) = F1.
Proof.
  split; [reflexivity|]. split; [reflexivity|].
  apply (toggleFlag_round_trip always_resolves F1 F1_off _ (str "production")
           sample_settings false); reflexivity.
Defined.


Lemma default_A_settings_wf : settings_wf default_A_settings.
Proof.
  split; [|reflexivity].
  apply NoDup_cons. split; [|apply NoDup_singleton].
  intros H. apply list_elem_of_singleton in H. discriminate H.
Defined.

Lemma addVariation_keeps_wf_witness :
  settings_wf default_A_settings
  /\ exists settings',
       environments
         (environments_set F3 (str "production")
            (set_variations default_A_settings
               (variations default_A_settings ++ [mkVariation (str "C") (VNum 3)])))
         !! str "production" = Some settings'
       /\ settings_wf settings'.
Proof.
  split; [exact default_A_settings_wf|].
  destruct (addVariation_keeps_wf always_resolves F3
              (environments_set F3 (str "production")
                 (set_variations default_A_settings
                    (variations default_A_settings
                     ++ [mkVariation (str "C") (VNum 3)])))
              (str "production") default_A_settings
              (mkVariation (str "C") (VNum 3))
              eq_refl default_A_settings_wf eq_refl)
    as (settings' & Hs & Hwf & _).
  exists settings'. split; [exact Hs | exact Hwf].
Defined.

Lemma deleteVariation_keeps_wf_witness :
  settings_wf default_A_settings
  /\ exists flag' settings',
       deleteVariation always_resolves (Some F3) (str "production") (str "B")
       = Resolved flag'
       /\ environments flag' !! str "production" = Some settings'
       /\ settings_wf settings'
       /\ defaultVariation settings' = Some (str "A").
Proof.
  split; [exact default_A_settings_wf|].
  eexists. 
  destruct (deleteVariation_keeps_wf always_resolves F3 _
              (str "production") default_A_settings (str "B")
              eq_refl default_A_settings_wf eq_refl)
    as (settings' & Hs & Hwf & _ & Hkeep & _).
  exists settings'. split; [reflexivity|]. split; [exact Hs|].
  split; [exact Hwf|]. apply Hkeep. discriminate.
Defined.

Lemma deleteVariation_of_default_witness :
  defaultVariation default_A_settings = Some (str "A")
  /\ exists flag',
       deleteVariation always_resolves (Some F3) (str "production") (str "A")
       = Resolved flag'
       /\ getDefaultValue flag' (str "production") = Returned (VNum 2).
Proof.
  split; [reflexivity|].
  eexists. split; [reflexivity|].
  destruct (deleteVariation_of_default always_resolves F3 _
              (str "production") default_A_settings (str "A")
              eq_refl ltac:(discriminate) eq_refl eq_refl)
    as (first & Hhead & Hget).
  injection Hhead as <-. exact Hget.
Defined.

Lemma setDefaultVariation_then_getDefaultValue_witness :
  str "B" <> []
  /\ exists flag',
       setDefaultVariation always_resolves (Some F3) (str "production") (str "B")
       = Resolved flag'
       /\ getDefaultValue flag' (str "production") = Returned (VNum 2).
Proof.
  split; [discriminate|].
  eexists. split; [reflexivity|].
  destruct (setDefaultVariation_then_getDefaultValue always_resolves F3 _
              (str "production") default_A_settings (str "B")
              eq_refl ltac:(discriminate) ltac:(discriminate) eq_refl)
    as (variation & Hfind & Hget).
  injection Hfind as <-. exact Hget.
Defined.

Lemma first_variation_cannot_be_deleted_witness :
  variations bare_settings = []
  /\ exists flag1,
       addVariation always_resolves (Some F3) (str "staging")
         (mkVariation (str "A") (VNum 1)) = Resolved flag1
       /\ deleteVariation always_resolves (Some flag1) (str "staging") (str "A")
          = Rejected (HttpError (str "Cannot delete the only variation") 400).
Proof.
  split; [reflexivity|].
  eexists. split; [reflexivity|].
  apply (first_variation_cannot_be_deleted always_resolves F3 _ (str "staging")
           bare_settings (mkVariation (str "A") (VNum 1)));
    reflexivity.
Defined.

Lemma createFlag_environments_witness :
  createFlag always_resolves None (Some [str "production"; str "staging"]) beta_data
  = Resolved beta_flag
  /\ (exists v, evaluate sample_number sample_object sample_parse sample_date
                  beta_flag (str "staging") unconvertible_context 0 = Returned v)
  /\ evaluate sample_number sample_object sample_parse sample_date
       beta_flag (str "qa") pro_context 0
     = Thrown (EnvironmentNotFound (str "qa") (str "beta")).
Proof.
  assert (H : createFlag always_resolves None
                (Some [str "production"; str "staging"]) beta_data
              = Resolved beta_flag) by reflexivity.
  split; [exact H|]. split.
  - destruct (proj1 (createFlag_environments sample_number sample_object
                       sample_parse sample_date always_resolves None _ beta_data
                       beta_flag (str "staging") unconvertible_context 0 H))
      as (envSettings & Hsettings & _ & Hreturns).
    { apply list_elem_of_further, list_elem_of_here. }
    apply Hreturns. intros r e Hr.
    assert (E : environments beta_flag !! str "staging"
                = Some (initial_settings BOOLEAN no_data)) by reflexivity.
    rewrite E in Hsettings. injection Hsettings as <-.
    now apply elem_of_nil in Hr.
  - apply (createFlag_environments sample_number sample_object sample_parse
             sample_date always_resolves None _ beta_data beta_flag (str "qa")
             pro_context 0 H).
    intros Hin. apply elem_of_cons in Hin as [Hin | Hin]; [discriminate Hin|].
    apply list_elem_of_singleton in Hin. discriminate Hin.
Defined.

Lemma createFlag_starts_off_witness :
  createFlag always_resolves None (Some [str "production"; str "staging"]) beta_data
  = Resolved beta_flag
  /\ evaluate sample_number sample_object sample_parse sample_date beta_flag (str "production")
       pro_context 0
     = Returned (VBool false).
Proof.
  assert (H : createFlag always_resolves None
                (Some [str "production"; str "staging"]) beta_data
              = Resolved beta_flag) by reflexivity.
  split; [exact H|].
  apply (createFlag_starts_off sample_number sample_object sample_parse sample_date
           always_resolves None _ beta_data beta_flag (str "production")
           pro_context 0 H eq_refl).
  apply list_elem_of_here.
Defined.

Lemma getValue_cache_round_trip_witness :
  getCacheKey sample_stringify (str "beta") plan_region = Some (str "beta:{plan;region;}")
  /\ getCacheKey sample_stringify (str "beta") region_plan
     = Some (str "beta:{region;plan;}")
  /\ exists this',
       getValue sample_stringify sample_member sample_manager (str "beta")
         plan_region VUndefined 1000 (Some (VBool true)) 1005 = (VBool true, this')
       /\ getValue sample_stringify sample_member this' (str "beta") plan_region
            VUndefined 61004 None 61004 = (VBool true, this')
       /\ getValue sample_stringify sample_member this' (str "beta") plan_region
            VUndefined 61005 None 61005 = (VBool false, this')
       /\ (getValue sample_stringify sample_member this' (str "beta") region_plan
             VUndefined 2000 (Some (VBool false)) 2005).1 = VBool false.
Proof.
  split; [reflexivity|]. split; [reflexivity|].
  destruct (getValue_cache_round_trip sample_stringify sample_member
              sample_manager (str "beta") plan_region VUndefined 1000 1005
              (VBool true) (str "beta:{plan;region;}") eq_refl eq_refl eq_refl
              eq_refl)
    as (this' & Hfirst & Hfresh & Hstale & Hother).
  exists this'. split; [exact Hfirst|]. split; [|split].
  - apply Hfresh. simpl. lia.
  - apply Hstale. simpl. lia.
  - apply (Hother region_plan (str "beta:{region;plan;}"));
      [reflexivity | discriminate | reflexivity].
Defined.

(** Offline, a flag of the bootstrap object gets its value, a flag the
    object does not have gets the fallback, and a key that names a member of
    [Object.prototype] gets that member. *)
Example getValue_offline :
  getValue sample_stringify sample_member offline_manager (str "beta") []
    VUndefined 0 None 0 = (VBool true, offline_manager)
  /\ getValue sample_stringify sample_member offline_manager (str "gamma") []
       (VNum 7) 0 None 0 = (VNum 7, offline_manager)
  /\ getValue sample_stringify sample_member offline_manager (str "constructor") []
       (VNum 7) 0 None 0
     = (VObj (sample_member (str "constructor")), offline_manager).
Proof. repeat split; reflexivity. Qed.

Lemma sample_project_wf : project_wf sample_project.
Proof.
  split.
  - repeat (apply NoDup_cons; split;
            [intros H; repeat (apply elem_of_cons in H as [H|H]; [discriminate H|]);
             now apply elem_of_nil in H|]).
    apply NoDup_nil_2.
  - intros env. simpl.
    destruct (decide (env = str "production")) as [->|H3].
    { split; [intros _ | intros _; now eexists].
      apply list_elem_of_further, list_elem_of_further, list_elem_of_here. }
    destruct (decide (env = str "staging")) as [->|H2].
    { split; [intros _ | intros _; now eexists].
      apply list_elem_of_further, list_elem_of_here. }
    destruct (decide (env = str "development")) as [->|H1].
    { split; [intros _ | intros _; now eexists]. apply list_elem_of_here. }
    rewrite !lookup_insert_ne, lookup_singleton_ne by congruence.
    split; [intros [x Hx]; discriminate|].
    intros H. repeat (apply elem_of_cons in H as [H|H]; [congruence|]).
    now apply elem_of_nil in H.
Defined.

Lemma project_environments_invariant_witness :
  project_wf sample_project
  /\ exists this',
       removeEnvironment sample_project (str "staging") = Done true this'
       /\ project_wf this'
       /\ project_environments this' = [str "development"; str "production"].
Proof.
  split; [exact sample_project_wf|].
  eexists. split; [reflexivity|]. split; [|reflexivity].
  apply (proj1 (proj2 (project_environments_invariant sample_project _
                         (str "staging") (str "k") sample_project_wf)) true).
  reflexivity.
Defined.

Lemma addEnvironment_removeEnvironment_round_trip_witness :
  project_wf sample_project
  /\ exists this1,
       addEnvironment sample_project (str "qa") (str "k4") = Done (str "k4") this1
       /\ removeEnvironment this1 (str "qa") = Done true sample_project.
Proof.
  split; [exact sample_project_wf|].
  eexists. split; [reflexivity|].
  apply (addEnvironment_removeEnvironment_round_trip sample_project _
           (str "qa") (str "k4") (str "k4") sample_project_wf);
    [discriminate | reflexivity].
Defined.
